(** * A retrieval-augmented chatbot: indexer, retriever and chat session

    Shallow embedding of [src/indexer.py], [src/retriever.py],
    [src/chatbot.py] and of the index and chatbot set-up blocks of [app.py]
    and [streamlit_app.py].

    Conventions.
    - A Python method that mutates [self], reads or writes the disk, or
      calls a network provider is a function from the state before the call
      to the outcome of the call and the state after it ([Py]).  A raised
      exception is an outcome; the state reached when it was raised is kept,
      as in Python.
    - Calls into the libraries (the directory reader, the vector index, the
      storage backend, the query engine, the language model) are parameters
      of the sections below.  They either return or fail; a failure surfaces
      in the caller as [ExternalError].
    - A [string] stands for a Python [str]; one character of the model is one
      character of the Python string.
    - [print] calls are left out: nothing the properties below talk about
      depends on the console. *)

From Stdlib Require Import QArith.
From stdpp Require Import gmap strings list.

Close Scope Q_scope.

Set Default Proof Using "Type".

(** ** Exceptions and outcomes *)

(** The exceptions that can leave the repository's functions.  The first two
    are raised by the repository itself; the spec calls them [NotFoundError]
    (a [FileNotFoundError]) and [EmptyCorpusError] (the [ValueError] of an
    empty corpus directory).  The operating-system errors come from
    [Path.mkdir] and [Path.iterdir]; [ExternalError] is whatever a library
    or provider call raised. *)
Inductive exn : Type :=
| FileNotFoundError (msg : string)
| ValueError (msg : string)
| FileExistsError (msg : string)
| NotADirectoryError (msg : string)
| ExternalError (msg : string).

Inductive result (A : Type) : Type :=
| Ok (a : A)
| Raise (e : exn).
Arguments Ok {A} _.
Arguments Raise {A} _.

(** What a library or provider call does: it returns, or it fails with a
    message of its own. *)
Inductive outcome (A : Type) : Type :=
| Returned (a : A)
| Failed (msg : string).
Arguments Returned {A} _.
Arguments Failed {A} _.

Definition of_outcome {A} (o : outcome A) : result A :=
  match o with
  | Returned a => Ok a
  | Failed msg => Raise (ExternalError msg)
  end.

Definition is_ok {A} (r : result A) : bool :=
  match r with Ok _ => true | Raise _ => false end.

(** ** Stateful computations *)

Definition Py (S A : Type) : Type := S -> result A * S.

Definition ret {S A} (a : A) : Py S A := fun s => (Ok a, s).
Definition raise {S A} (e : exn) : Py S A := fun s => (Raise e, s).
Definition bind {S A B} (c : Py S A) (k : A -> Py S B) : Py S B :=
  fun s =>
    match c s with
    | (Ok a, s') => k a s'
    | (Raise e, s') => (Raise e, s')
    end.
Definition gets {S A} (f : S -> A) : Py S A := fun s => (Ok (f s), s).
Definition modify {S} (f : S -> S) : Py S unit := fun s => (Ok tt, f s).

Notation "'let!' x ':=' c 'in' k" := (bind c (fun x => k))
  (at level 10, x pattern, c at level 100, k at level 200).
Notation "c ';;;' k" := (bind c (fun _ => k))
  (at level 100, k at level 200, right associativity).

(** ** Strings *)

Definition newline : string := String (Ascii.ascii_of_nat 10) EmptyString.

(** [sep.join(parts)] *)
Fixpoint join (sep : string) (parts : list string) : string :=
  match parts with
  | [] => ""
  | [p] => p
  | p :: rest => p +:+ sep +:+ join sep rest
  end.

(** [s[:n]] *)
Fixpoint slice_to (n : nat) (s : string) : string :=
  match n, s with
  | 0, _ => ""
  | S _, EmptyString => ""
  | S n', String c s' => String c (slice_to n' s')
  end.

(** ** The chat memory *)

(** A chat message, with the two fields the repository reads. *)
Record ChatMessage : Type := mkMessage { role : string; content : string }.

#[global] Instance ChatMessage_eq_dec : EqDecision ChatMessage.
Proof. solve_decision. Defined.

(** *** The token budget *)

Section Budget.
(** The number of tokens of a message, as the tokenizer counts them. *)
Variable count_tokens : ChatMessage -> nat.

Definition history_tokens (h : list ChatMessage) : nat :=
  sum_list_with count_tokens h.

(** Modelled from the spec: the eviction of [ChatMemoryBuffer], which the
    library implements and the repository only configures with
    [token_limit=4096].  When the history exceeds the budget, the oldest
    turns are dropped until it fits. *)
Fixpoint evict (limit : nat) (h : list ChatMessage) : list ChatMessage :=
  if history_tokens h <=? limit then h
  else match h with
       | [] => []
       | _ :: newer => evict limit newer
       end.

End Budget.

(** Modelled from the spec: [ChatMemoryBuffer] is the library's buffer, whose
    code is not part of the repository; the repository constructs it with a
    token limit and calls [put], [get_messages] and [reset] on it.  Following
    the spec, the history is an ordered sequence of turns, bounded by a
    token budget: it is changed by appends, after which the oldest turns are
    evicted until it fits, and by a wholesale reset, and reading it gives
    the turns it holds in order.  The buffer counts tokens with the
    tokenizer it was made with. *)
Record ChatMemoryBuffer : Type := mkBuffer {
  token_limit : nat;
  tokenizer_fn : ChatMessage -> nat;
  chat_store : list ChatMessage
}.

Module ChatMemoryBuffer.
(** Modelled from the spec: [ChatMemoryBuffer.from_defaults(token_limit=n)],
    an empty history with its budget; [tokenizer] is the tokenizer the
    library takes by default. *)
Definition from_defaults (tokenizer : ChatMessage -> nat) (token_limit : nat)
  : ChatMemoryBuffer :=
  {| token_limit := token_limit; tokenizer_fn := tokenizer; chat_store := [] |}.

(** Modelled from the spec: [put(role, content)] appends one turn, and the
    oldest turns are dropped until the history fits the budget. *)
Definition put (r c : string) (b : ChatMemoryBuffer) : ChatMemoryBuffer :=
  {| token_limit := token_limit b;
     tokenizer_fn := tokenizer_fn b;
     chat_store :=
       evict (tokenizer_fn b) (token_limit b) (chat_store b ++ [mkMessage r c]) |}.

(** Modelled from the spec: [get_messages()] gives the turns of the
    history, oldest first; a turn that was evicted is no longer among
    them. *)
Definition get_messages (b : ChatMemoryBuffer) : list ChatMessage :=
  chat_store b.

(** Modelled from the spec: [reset()] empties the history. *)
Definition reset (b : ChatMemoryBuffer) : ChatMemoryBuffer :=
  {| token_limit := token_limit b; tokenizer_fn := tokenizer_fn b; chat_store := [] |}.
End ChatMemoryBuffer.

(** ** The retriever ([src/retriever.py]) *)

(** A retrieved node.  [score_attr] is [None] when the object has no
    attribute [score] ([hasattr] is false), and [Some v] when it has one,
    whose value [v] may itself be Python's [None]. *)
Record NodeWithScore (Score : Type) : Type := mkNode {
  score_attr : option (option Score);
  text : string
}.
Arguments mkNode {Score} _ _.
Arguments score_attr {Score} _.
Arguments text {Score} _.

(** One entry of ["nodes_summary"]. *)
Record NodeSummary (Score : Type) : Type := mkSummary {
  summary_score : option Score;
  text_preview : string
}.
Arguments mkSummary {Score} _ _.
Arguments summary_score {Score} _.
Arguments text_preview {Score} _.

(** The dictionary returned by [get_retrieval_context]. *)
Record ContextInfo (Score : Type) : Type := mkContextInfo {
  num_nodes_retrieved : nat;
  nodes_summary : list (NodeSummary Score)
}.
Arguments mkContextInfo {Score} _ _.
Arguments num_nodes_retrieved {Score} _.
Arguments nodes_summary {Score} _.

Section Retriever.
(** The state of the providers behind the index (embedding and language
    model services), the index, the similarity scores and the answer of
    the query engine. *)
Context {World VectorStoreIndex Score Response : Type}.

Record VectorIndexRetriever : Type := mkVectorIndexRetriever {
  vir_index : VectorStoreIndex;
  similarity_top_k : nat
}.

Inductive ResponseSynthesizer : Type := CompactAndRefine.

Record RetrieverQueryEngine : Type := mkQueryEngine {
  qe_retriever : VectorIndexRetriever;
  response_synthesizer : ResponseSynthesizer
}.

(** [VectorIndexRetriever.retrieve] and [RetrieverQueryEngine.query]. *)
Variable retrieve :
  VectorIndexRetriever -> string -> World -> outcome (list (NodeWithScore Score)) * World.
Variable query :
  RetrieverQueryEngine -> string -> World -> outcome Response * World.

Record InformationRetriever : Type := mkRetriever {
  index : VectorStoreIndex;
  top_k : nat;
  retriever : option VectorIndexRetriever;
  query_engine : option RetrieverQueryEngine
}.

Definition _setup_retriever (self : InformationRetriever) : InformationRetriever :=
  let r := {| vir_index := index self; similarity_top_k := top_k self |} in
  let response_synthesizer := CompactAndRefine in
  {| index := index self;
     top_k := top_k self;
     retriever := Some r;
     query_engine :=
       Some {| qe_retriever := r; response_synthesizer := response_synthesizer |} |}.

(** [InformationRetriever.__init__]; [top_k] defaults to 3. *)
Definition InformationRetriever_init (index : VectorStoreIndex) (top_k : nat)
  : InformationRetriever :=
  _setup_retriever
    {| index := index; top_k := top_k; retriever := None; query_engine := None |}.

Definition default_top_k : nat := 3.

Definition retrieve_information (self : InformationRetriever) (query_text : string)
  : Py World Response :=
  match query_engine self with
  | None => raise (ValueError "El motor de consultas no está configurado")
  | Some qe =>
      fun w => let '(o, w') := query qe query_text w in (of_outcome o, w')
  end.

(** [node.score if hasattr(node, "score") else None] *)
Definition node_score (node : NodeWithScore Score) : option Score :=
  match score_attr node with
  | Some v => v
  | None => None
  end.

(** [node.text[:100] + "..." if len(node.text) > 100 else node.text] *)
Definition node_text_preview (node : NodeWithScore Score) : string :=
  if 100 <? String.length (text node)
  then slice_to 100 (text node) +:+ "..."
  else text node.

Definition node_summary (node : NodeWithScore Score) : NodeSummary Score :=
  {| summary_score := node_score node; text_preview := node_text_preview node |}.

Definition get_retrieval_context (self : InformationRetriever) (query_text : string)
  : Py World (ContextInfo Score) :=
  match retriever self with
  | None => raise (ValueError "El recuperador no está configurado")
  | Some r =>
      fun w =>
        match retrieve r query_text w with
        | (Returned nodes, w') =>
            (Ok {| num_nodes_retrieved := length nodes;
                   nodes_summary := map node_summary nodes |}, w')
        | (Failed msg, w') => (Raise (ExternalError msg), w')
        end
  end.
End Retriever.

(** ** The chat session ([src/chatbot.py]) *)

(** The text of [self.system_prompt]. *)
Definition system_prompt_text : string :=
  "
        Eres un asistente útil y experto basado en RAG (Retrieval-Augmented Generation).
        
        Tu tarea es responder preguntas basándote únicamente en la información proporcionada 
        en tu contexto. No inventes información ni uses conocimiento que no esté en el contexto.
        
        Si no conoces la respuesta o la información no está en el contexto proporcionado, 
        indica amablemente que no tienes esa información y sugiere al usuario que reformule
        su pregunta o proporcione más documentos con esa información.
        
        Utiliza un tono profesional y amigable. Organiza tus respuestas de forma clara y concisa.
        ".

(** The literal pieces of the prompt template of [chat], between its four
    placeholders. *)
Definition prompt_head : string :=
  "
        ".
Definition prompt_before_history : string :=
  "
        
        Historial de la conversación:
        ".
Definition prompt_before_context : string :=
  "
        
        Contexto recuperado de los documentos:
        ".
Definition prompt_before_question : string :=
  "
        
        Pregunta del usuario: ".
Definition prompt_tail : string :=
  "
        
        Por favor, responde basándote únicamente en el contexto proporcionado.
        ".

(** The language model handle built by [OpenAI(model=..., temperature=...)]. *)
Record OpenAI : Type := mkOpenAI { model : string; temperature : Q }.

Section Chatbot.
Context {World VectorStoreIndex Response Completion : Type}.

(** [RetrieverQueryEngine.query] and [OpenAI.complete], and [str] on what
    they return. *)
Variable query :
  @RetrieverQueryEngine VectorStoreIndex -> string -> World -> outcome Response * World.
Variable complete : OpenAI -> string -> World -> outcome Completion * World.
Variable Response_str : Response -> string.
Variable Completion_str : Completion -> string.

(** The tokenizer [ChatMemoryBuffer.from_defaults] takes when none is
    given. *)
Variable default_tokenizer : ChatMessage -> nat.

Record RagChatbot : Type := mkChatbot {
  bot_retriever : @InformationRetriever VectorStoreIndex;
  chat_history : ChatMemoryBuffer;
  system_prompt : string;
  llm : OpenAI
}.

(** [RagChatbot.__init__] *)
Definition RagChatbot_init (retriever : @InformationRetriever VectorStoreIndex)
  : RagChatbot :=
  {| bot_retriever := retriever;
     chat_history := ChatMemoryBuffer.from_defaults default_tokenizer 4096;
     system_prompt := system_prompt_text;
     llm := {| model := "gpt-3.5-turbo"; temperature := (2 # 10)%Q |} |}.

Definition set_chat_history (b : ChatMemoryBuffer) (self : RagChatbot) : RagChatbot :=
  {| bot_retriever := bot_retriever self;
     chat_history := b;
     system_prompt := system_prompt self;
     llm := llm self |}.

(** The line of one message in the formatted history. *)
Definition format_message (msg : ChatMessage) : string :=
  let r := if String.eqb (role msg) "user" then "Usuario" else "Asistente" in
  r +:+ ": " +:+ content msg.

Definition _format_chat_history (self : RagChatbot) : string :=
  let messages := ChatMemoryBuffer.get_messages (chat_history self) in
  match messages with
  | [] => "No hay historial de chat previo."
  | _ => join newline (map format_message messages)
  end.

Definition build_prompt (self : RagChatbot) (chat_history context user_input : string)
  : string :=
  prompt_head +:+ system_prompt self
  +:+ prompt_before_history +:+ chat_history
  +:+ prompt_before_context +:+ context
  +:+ prompt_before_question +:+ user_input
  +:+ prompt_tail.

(** A session is the chatbot object together with the providers it talks
    to. *)
Definition Session : Type := RagChatbot * World.

Definition on_world {A} (c : Py World A) : Py Session A :=
  fun '(self, w) => let '(r, w') := c w in (r, (self, w')).

Definition call {A} (f : World -> outcome A * World) : Py Session A :=
  on_world (fun w => let '(o, w') := f w in (of_outcome o, w')).

Definition update_history (f : ChatMemoryBuffer -> ChatMemoryBuffer) : Py Session unit :=
  modify (fun '(self, w) => (set_chat_history (f (chat_history self)) self, w)).

Definition chat (user_input : string) : Py Session string :=
  let! self := gets fst in
  let! retrieval_response :=
    on_world (retrieve_information query (bot_retriever self) user_input) in
  let chat_history := _format_chat_history self in
  let context := Response_str retrieval_response in
  let prompt := build_prompt self chat_history context user_input in
  let! response := call (complete (llm self) prompt) in
  update_history (ChatMemoryBuffer.put "user" user_input) ;;;
  update_history (ChatMemoryBuffer.put "assistant" (Completion_str response)) ;;;
  ret (Completion_str response).

(** One [{"role": ..., "content": ...}] dictionary of [get_chat_history]. *)
Definition message_dict (msg : ChatMessage) : string * string :=
  (role msg, content msg).

Definition get_chat_history (self : RagChatbot) : list (string * string) :=
  let messages := ChatMemoryBuffer.get_messages (chat_history self) in
  map message_dict messages.

Definition clear_history (self : RagChatbot) : RagChatbot :=
  set_chat_history (ChatMemoryBuffer.reset (chat_history self)) self.

(** The turns held by the chatbot, oldest first. *)
Definition history (self : RagChatbot) : list ChatMessage :=
  ChatMemoryBuffer.get_messages (chat_history self).

End Chatbot.

(** ** The file system *)

(** A path is the list of its components below the working directory;
    [[]] is the working directory itself ([Path(".")]). *)
Definition Path : Type := list string.

Inductive node : Type :=
| File (data : string)
| Dir.

(** The disk: the entries below the working directory, by path. *)
Abbreviation FS := (gmap (list string) node).

(** [Path.parent]; the parent of the working directory is itself. *)
Definition parent (p : Path) : Path := removelast p.

(** [str(path)] *)
Definition path_str (p : Path) : string :=
  match p with
  | [] => "."
  | _ => join "/" p
  end.

Definition lookup_node (p : Path) (fs : FS) : option node :=
  match p with
  | [] => Some Dir
  | _ => fs !! p
  end.

(** [Path.exists] and [Path.is_dir] *)
Definition path_exists (p : Path) (fs : FS) : bool :=
  match lookup_node p fs with Some _ => true | None => false end.

Definition is_dir (p : Path) (fs : FS) : bool :=
  match lookup_node p fs with Some Dir => true | _ => false end.

Definition is_child (p q : Path) : bool :=
  bool_decide (q ≠ [] ∧ parent q = p).

(** The entries of directory [p], whatever their kind. *)
Definition entries (p : Path) (fs : FS) : list Path :=
  filter (fun q => is_child p q = true) (elements (dom fs)).

(** [Path.iterdir], read to the end. *)
Definition iterdir (p : Path) (fs : FS) : result (list Path) :=
  match lookup_node p fs with
  | None => Raise (FileNotFoundError (path_str p))
  | Some (File _) => Raise (NotADirectoryError (path_str p))
  | Some Dir => Ok (entries p fs)
  end.

(** [any(xs)] for a sequence of paths, each of which is truthy. *)
Definition any {A} (xs : list A) : bool :=
  match xs with [] => false | _ :: _ => true end.

(** [os.mkdir] *)
Definition os_mkdir (p : Path) : Py FS unit :=
  fun fs =>
    match lookup_node p fs with
    | Some _ => (Raise (FileExistsError (path_str p)), fs)
    | None =>
        match lookup_node (parent p) fs with
        | None => (Raise (FileNotFoundError (path_str p)), fs)
        | Some (File _) => (Raise (NotADirectoryError (path_str p)), fs)
        | Some Dir => (Ok tt, <[p := Dir]> fs)
        end
    end.

(** [Path.mkdir(parents=False, exist_ok=True)] *)
Definition mkdir_exist_ok (p : Path) : Py FS unit :=
  fun fs =>
    match os_mkdir p fs with
    | (Ok u, fs') => (Ok u, fs')
    | (Raise (FileNotFoundError m), fs') => (Raise (FileNotFoundError m), fs')
    | (Raise e, fs') => if is_dir p fs' then (Ok tt, fs') else (Raise e, fs')
    end.

(** [Path.mkdir(parents=True, exist_ok=True)], by recursion on the path read
    from its last component: when [os.mkdir] reports a missing parent, the
    parent is made first and the directory is made again. *)
Fixpoint mkdir_parents_rev (rev_p : list string) : Py FS unit :=
  fun fs =>
    let p := reverse rev_p in
    match os_mkdir p fs with
    | (Ok u, fs') => (Ok u, fs')
    | (Raise (FileNotFoundError m), fs') =>
        match rev_p with
        | [] => (Raise (FileNotFoundError m), fs')
        | _ :: rev_parent =>
            match mkdir_parents_rev rev_parent fs' with
            | (Ok _, fs'') => mkdir_exist_ok p fs''
            | (Raise e, fs'') => (Raise e, fs'')
            end
        end
    | (Raise e, fs') => if is_dir p fs' then (Ok tt, fs') else (Raise e, fs')
    end.

Definition mkdir_parents (p : Path) : Py FS unit :=
  mkdir_parents_rev (reverse p).

(** ** The indexer ([src/indexer.py]) *)

Section Indexer.
Context {World VectorStoreIndex Document : Type}.

(** [SimpleDirectoryReader(dir).load_data()], which reads the disk;
    [VectorStoreIndex.from_documents], which calls the embedding provider;
    [index.storage_context.persist], which writes the disk; and
    [load_index_from_storage(StorageContext.from_defaults(persist_dir))],
    which reads it. *)
Variable load_data : Path -> FS -> outcome (list Document).
Variable from_documents : list Document -> World -> outcome VectorStoreIndex * World.
Variable persist : VectorStoreIndex -> Path -> FS -> outcome unit * FS.
Variable load_index_from_storage : Path -> FS -> outcome VectorStoreIndex.

Record DocumentIndexer : Type := mkIndexer {
  data_dir : Path;
  index_name : string;
  stored_index : option VectorStoreIndex   (* [self.index] *)
}.

(** [DocumentIndexer.__init__]; [index_name] defaults to
    ["llamaindex_chatbot"]. *)
Definition DocumentIndexer_init (data_dir : Path) (index_name : string)
  : DocumentIndexer :=
  {| data_dir := data_dir; index_name := index_name; stored_index := None |}.

Definition default_index_name : string := "llamaindex_chatbot".

Definition set_index (i : VectorStoreIndex) (self : DocumentIndexer) : DocumentIndexer :=
  {| data_dir := data_dir self; index_name := index_name self; stored_index := Some i |}.

(** The indexer object, the disk and the providers. *)
Record Machine : Type := mkMachine {
  indexer : DocumentIndexer;
  disk : FS;
  world : World
}.

Definition with_indexer (f : DocumentIndexer -> DocumentIndexer) (m : Machine) : Machine :=
  {| indexer := f (indexer m); disk := disk m; world := world m |}.

(** Lifting of what reads the disk, what reads the state of the providers,
    what writes the disk and what calls a provider. *)
Definition read_disk {A} (f : FS -> result A) : Py Machine A :=
  fun m => (f (disk m), m).

Definition on_disk {A} (c : Py FS A) : Py Machine A :=
  fun m =>
    let '(r, fs') := c (disk m) in
    (r, {| indexer := indexer m; disk := fs'; world := world m |}).

Definition read_world {A} (f : World -> outcome A) : Py Machine A :=
  fun m => (of_outcome (f (world m)), m).

Definition on_provider {A} (f : World -> outcome A * World) : Py Machine A :=
  fun m =>
    let '(o, w') := f (world m) in
    (of_outcome o, {| indexer := indexer m; disk := disk m; world := w' |}).

Definition missing_dir_msg (d : Path) : string :=
  "El directorio " +:+ path_str d +:+ " no existe".

Definition empty_dir_msg (d : Path) : string :=
  "El directorio " +:+ path_str d +:+ " está vacío. Por favor, añade documentos.".

Definition load_documents : Py Machine (list Document) :=
  let! self := gets indexer in
  let! found := read_disk (fun fs => Ok (path_exists (data_dir self) fs)) in
  if negb found then raise (FileNotFoundError (missing_dir_msg (data_dir self)))
  else
    let! listing := read_disk (iterdir (data_dir self)) in
    if negb (any listing) then raise (ValueError (empty_dir_msg (data_dir self)))
    else
      let! documents := read_disk (fun fs => of_outcome (load_data (data_dir self) fs)) in
      ret documents.

Definition create_index : Py Machine VectorStoreIndex :=
  let! documents := load_documents in
  let! i := on_provider (from_documents documents) in
  modify (with_indexer (set_index i)) ;;;
  ret i.

Definition no_index_msg : string :=
  "No hay un índice para guardar. Ejecuta create_index primero.".

Definition save_index (persist_dir : Path) : Py Machine unit :=
  let! self := gets indexer in
  match stored_index self with
  | None => raise (ValueError no_index_msg)
  | Some i =>
      let persist_path := persist_dir in
      on_disk (mkdir_parents persist_path) ;;;
      on_disk (fun fs => let '(o, fs') := persist i persist_path fs in (of_outcome o, fs'))
  end.

Definition default_persist_dir : Path := ["storage"].

Definition no_index_found_msg (d : Path) : string :=
  "No se encontró ningún índice en " +:+ path_str d.

Definition load_index (persist_dir : Path) : Py Machine VectorStoreIndex :=
  let persist_path := persist_dir in
  let! found := read_disk (fun fs => Ok (path_exists persist_path fs)) in
  if negb found then raise (FileNotFoundError (no_index_found_msg persist_path))
  else
    let! i := read_disk (fun fs => of_outcome (load_index_from_storage persist_path fs)) in
    modify (with_indexer (set_index i)) ;;;
    ret i.

End Indexer.

(** ** Setting up the index and the chatbot ([app.py], [streamlit_app.py]) *)

Section Setup.
Context {World VectorStoreIndex Document Response Completion : Type}.
Variable load_data : Path -> FS -> outcome (list Document).
Variable from_documents : list Document -> World -> outcome VectorStoreIndex * World.
Variable persist : VectorStoreIndex -> Path -> FS -> outcome unit * FS.
Variable load_index_from_storage : Path -> FS -> outcome VectorStoreIndex.

Local Abbreviation Machine := (@Machine World VectorStoreIndex).
Local Abbreviation RagChatbot := (@RagChatbot VectorStoreIndex).

(** [indexer = DocumentIndexer(data_dir=data_dir)] *)
Definition new_indexer (data_dir : Path) : Py Machine unit :=
  modify (with_indexer (fun _ => DocumentIndexer_init data_dir default_index_name)).

(** [index = indexer.create_index(); indexer.save_index(persist_dir)], the
    two lines with which both front ends build and persist an index. *)
Definition create_and_save (persist_dir : Path) : Py Machine VectorStoreIndex :=
  let! i := create_index load_data from_documents in
  save_index persist persist_dir ;;;
  ret i.

(** The library objects the two constructors build:
    [VectorIndexRetriever(...)], [CompactAndRefine()] and
    [RetrieverQueryEngine(...)] in [InformationRetriever.__init__], and
    [ChatMemoryBuffer.from_defaults(...)] and [OpenAI(...)] in
    [RagChatbot.__init__].  Building them sends nothing to a provider: the
    library reads what it finds (its configuration) and returns or fails. *)
Variable retriever_objects : VectorStoreIndex -> nat -> World -> outcome unit.
Variable chatbot_objects : World -> outcome unit.
Variable default_tokenizer : ChatMessage -> nat.

(** The chatbot the two constructors give when they return. *)
Definition chatbot_on (i : VectorStoreIndex) : RagChatbot :=
  RagChatbot_init default_tokenizer (InformationRetriever_init i 3).

(** [retriever = InformationRetriever(index=index, top_k=3)] followed by
    [RagChatbot(retriever=retriever)]: an exception of a constructor leaves
    the front end's code at that line. *)
Definition new_chatbot (i : VectorStoreIndex) : Py Machine RagChatbot :=
  read_world (retriever_objects i 3) ;;;
  read_world chatbot_objects ;;;
  ret (chatbot_on i).

(** The body of the [try] of [main] in [app.py]: load the persisted index
    when its directory exists, build and persist one otherwise. *)
Definition main_obtain_index (persist_dir : Path) : Py Machine VectorStoreIndex :=
  let! found := read_disk (fun fs => Ok (path_exists persist_dir fs)) in
  if found then load_index load_index_from_storage persist_dir
  else create_and_save persist_dir.

(** [main] from the construction of the indexer to the chat loop.  The
    indexer is made before the [try]; the [except] branch reports the error
    of the [try] and returns, which is [None]; the retriever and the chatbot
    are made after it, outside any [try]. *)
Definition main_setup (data_dir persist_dir : Path) : Py Machine (option RagChatbot) :=
  new_indexer data_dir ;;;
  fun m =>
    match main_obtain_index persist_dir m with
    | (Raise _, m') => (Ok None, m')
    | (Ok i, m') => (let! bot := new_chatbot i in ret (Some bot)) m'
    end.

(** [st.session_state] *)
Record SessionState : Type := mkSessionState {
  messages : list (string * string);
  chatbot : option RagChatbot;
  index_created : bool
}.

(** The body of the [try] that loads the chatbot in [streamlit_app.py]. *)
Definition chatbot_from_storage (data_dir persist_dir : Path) : Py Machine RagChatbot :=
  new_indexer data_dir ;;;
  let! i := load_index load_index_from_storage persist_dir in
  new_chatbot i.

(** The body of the [try] behind the button that creates the index. *)
Definition chatbot_from_corpus (data_dir persist_dir : Path) : Py Machine RagChatbot :=
  new_indexer data_dir ;;;
  let! i := create_and_save persist_dir in
  new_chatbot i.

(** A [try] whose [except] branches only report: on success the session
    state takes the chatbot, on any exception it is left as it was. *)
Definition try_install (c : Py Machine RagChatbot) (st : SessionState) (m : Machine)
  : SessionState * Machine :=
  match c m with
  | (Ok bot, m') =>
      ({| messages := messages st; chatbot := Some bot; index_created := true |}, m')
  | (Raise _, m') => (st, m')
  end.

(** Loading the chatbot at the start of a run of the page, once the API key
    is set. *)
Definition streamlit_load_chatbot (st : SessionState) (m : Machine)
  : SessionState * Machine :=
  match chatbot st, index_created st with
  | None, false => try_install (chatbot_from_storage ["data"] ["storage"]) st m
  | _, _ => (st, m)
  end.

Definition streamlit_create_index (st : SessionState) (m : Machine)
  : SessionState * Machine :=
  try_install (chatbot_from_corpus ["data"] ["storage"]) st m.

End Setup.

(** ** Objects, references and sharing *)

(** [get_chat_history] hands a list of dictionaries to its caller, who may
    change them.  To see what such changes can reach, the objects involved
    are placed in a store of objects addressed by location: the messages
    held by the buffer, the list [get_messages()] gives access to, and the
    list and dictionaries built by the comprehension.  Strings are immutable
    and are held by value. *)
Module Heap.

Abbreviation loc := nat.

Inductive value : Type :=
| VStr (s : string)
| VRef (l : loc).

Inductive object : Type :=
| OMessage (r c : string)
| ODict (items : list (string * value))
| OList (items : list value).

Abbreviation heap := (list object).

Definition alloc (o : object) (h : heap) : loc * heap := (length h, h ++ [o]).

(** [msg.role] and [msg.content] of the message a value refers to. *)
Definition read_message (h : heap) (v : value) : option ChatMessage :=
  match v with
  | VRef l =>
      match h !! l with
      | Some (OMessage r c) => Some (mkMessage r c)
      | _ => None
      end
  | VStr _ => None
  end.

(** The turns of the buffer whose list of messages lives at [store]. *)
Definition read_messages (h : heap) (store : loc) : option (list ChatMessage) :=
  match h !! store with
  | Some (OList refs) => mapM (read_message h) refs
  | _ => None
  end.

(** [{"role": msg.role, "content": msg.content}], a new dictionary. *)
Definition new_dict (msg : ChatMessage) : object :=
  ODict [("role", VStr (role msg)); ("content", VStr (content msg))].

(** The comprehension: one new dictionary per message, in order. *)
Fixpoint build_dicts (msgs : list value) (h : heap) : option (list value * heap) :=
  match msgs with
  | [] => Some ([], h)
  | v :: rest =>
      match read_message h v with
      | Some msg =>
          let '(d, h1) := alloc (new_dict msg) h in
          match build_dicts rest h1 with
          | Some (ds, h2) => Some (VRef d :: ds, h2)
          | None => None
          end
      | None => None
      end
  end.

(** [get_chat_history], with [get_messages()] giving the buffer's own list:
    the location of the new list and the store after the call.  [None] when
    the store does not hold a list of messages at [store]. *)
Definition get_chat_history (store : loc) (h : heap) : option (loc * heap) :=
  match h !! store with
  | Some (OList refs) =>
      match build_dicts refs h with
      | Some (ds, h1) => Some (alloc (OList ds) h1)
      | None => None
      end
  | _ => None
  end.

(** Reading back the list of dictionaries at [res]. *)
Definition read_dict (h : heap) (v : value) : option (string * string) :=
  match v with
  | VRef l =>
      match h !! l with
      | Some (ODict [(k1, VStr r); (k2, VStr c)]) =>
          if String.eqb k1 "role" && String.eqb k2 "content" then Some (r, c) else None
      | _ => None
      end
  | VStr _ => None
  end.

Definition read_history (h : heap) (res : loc) : option (list (string * string)) :=
  match h !! res with
  | Some (OList ds) => mapM (read_dict h) ds
  | _ => None
  end.

(** The locations an object refers to. *)
Definition value_refs (v : value) : list loc :=
  match v with VRef l => [l] | VStr _ => [] end.

Definition refs_of (o : object) : list loc :=
  match o with
  | OMessage _ _ => []
  | ODict items => flat_map (fun kv => value_refs (snd kv)) items
  | OList items => flat_map value_refs items
  end.

(** What the caller can do to the store: overwrite an object (an item
    assignment, an [append], a [clear], a [del], on a list or on a
    dictionary) or create one. *)
Inductive mutation : Type :=
| Write (l : loc) (o : object)
| Alloc (o : object).

Definition apply_mutation (h : heap) (mu : mutation) : heap :=
  match mu with
  | Write l o => <[l := o]> h
  | Alloc o => h ++ [o]
  end.

Definition mutate (mus : list mutation) (h : heap) : heap :=
  foldl apply_mutation h mus.

(** The caller holds the returned list and what it reaches, all of it at or
    above [base]: it writes there, and what it writes refers there. *)
Definition allowed (base : loc) (mu : mutation) : bool :=
  match mu with
  | Write l o => (base <=? l) && forallb (fun l' => base <=? l') (refs_of o)
  | Alloc o => forallb (fun l' => base <=? l') (refs_of o)
  end.

(** No object at or above [base] refers below [base]. *)
Definition closed_above (base : loc) (h : heap) : Prop :=
  forall l o, base <= l -> h !! l = Some o -> Forall (fun l' => base <= l') (refs_of o).

(** [result.append(d)], [result[i] = d], [result.clear()] and
    [d[key] = s] as writes. *)
Definition list_append (l : loc) (v : value) (h : heap) : option mutation :=
  match h !! l with
  | Some (OList items) => Some (Write l (OList (items ++ [v])))
  | _ => None
  end.

Definition list_clear (l : loc) : mutation := Write l (OList []).

(** [d[key] = v] on the items of a dictionary: an existing key keeps its
    place, a new key goes last. *)
Fixpoint set_item (key : string) (v : value) (items : list (string * value))
  : list (string * value) :=
  match items with
  | [] => [(key, v)]
  | (k, x) :: rest =>
      if String.eqb k key then (k, v) :: rest else (k, x) :: set_item key v rest
  end.

Definition dict_set (l : loc) (key : string) (v : value) (h : heap) : option mutation :=
  match h !! l with
  | Some (ODict items) => Some (Write l (ODict (set_item key v items)))
  | _ => None
  end.

End Heap.

(** ** A small deployment, for concrete runs *)

(** The world counts the provider calls made so far; a document is its
    text and an index the list of the texts it was built from.  The storage
    backend keeps an index in one file of the persist directory. *)
Module Demo.

Definition file_text (fs : FS) (q : Path) : option string :=
  match fs !! q with
  | Some (File data) => Some data
  | _ => None
  end.

Definition load_data (d : Path) (fs : FS) : outcome (list string) :=
  Returned (omap (file_text fs) (entries d fs)).

Definition from_documents (docs : list string) (w : nat) : outcome (list string) * nat :=
  (Returned docs, S w).

Definition persist (i : list string) (p : Path) (fs : FS) : outcome unit * FS :=
  (Returned tt, <[p ++ ["docstore.json"] := File (join newline i)]> fs).

Definition load_index_from_storage (p : Path) (fs : FS) : outcome (list string) :=
  match file_text fs (p ++ ["docstore.json"]) with
  | Some data => Returned [data]
  | None => Failed "docstore.json is missing"
  end.

Definition query (qe : @RetrieverQueryEngine (list string)) (q : string) (w : nat)
  : outcome string * nat :=
  (Returned (join newline (vir_index (qe_retriever qe))), S w).

Definition complete (llm : OpenAI) (prompt : string) (w : nat) : outcome string * nat :=
  (Returned "El cielo es azul.", S w).

(** A provider that is down. *)
Definition complete_down (llm : OpenAI) (prompt : string) (w : nat)
  : outcome string * nat :=
  (Failed "connection refused", S w).

Definition str (s : string) : string := s.

Fixpoint repeat_string (n : nat) (s : string) : string :=
  match n with
  | 0 => ""
  | S n' => s +:+ repeat_string n' s
  end.

(** A chunk of 101 characters and a chunk of 16. *)
Definition long_text : string := repeat_string 101 "a".
Definition short_text : string := "The sky is blue.".

Definition nodes : list (NodeWithScore Q) :=
  [ mkNode (Some (Some (9 # 10)%Q)) long_text;
    mkNode (Some None) short_text ].

Definition retrieve (r : @VectorIndexRetriever (list string)) (q : string) (w : nat)
  : outcome (list (NodeWithScore Q)) * nat :=
  (Returned nodes, S w).

Definition the_index : list string := [short_text].

Definition the_retriever : @InformationRetriever (list string) :=
  InformationRetriever_init the_index default_top_k.

(** A tokenizer that counts one token per character of the content. *)
Definition count_tokens (msg : ChatMessage) : nat := String.length (content msg).

(** The library builds its objects. *)
Definition retriever_objects (i : list string) (k : nat) (w : nat) : outcome unit :=
  Returned tt.

Definition chatbot_objects (w : nat) : outcome unit := Returned tt.

Definition bot : @RagChatbot (list string) := RagChatbot_init count_tokens the_retriever.



(** The disk with a corpus of one document, without and with an empty
    corpus directory, and the machine on each. *)
Definition corpus_disk : FS :=
  <[["data"; "sky.txt"] := File short_text]> (<[["data"] := Dir]> ∅).

Definition empty_corpus_disk : FS := <[["data"] := Dir]> ∅.

Definition machine (fs : FS) : @Machine nat (list string) :=
  {| indexer := DocumentIndexer_init ["data"] default_index_name;
     disk := fs;
     world := 0 |}.

Definition machine_with_index (fs : FS) : @Machine nat (list string) :=
  with_indexer (set_index the_index) (machine fs).

(** A store of objects holding a history of two turns: the two messages,
    and at location 2 the buffer's list of them. *)
Definition two_turns : Heap.heap :=
  [ Heap.OMessage "user" "hola";
    Heap.OMessage "assistant" "El cielo es azul.";
    Heap.OList [Heap.VRef 0; Heap.VRef 1] ].

Definition bot_after_turn : @RagChatbot (list string) :=
  set_chat_history
    (ChatMemoryBuffer.put "assistant" "El cielo es azul."
       (ChatMemoryBuffer.put "user" "hola" (chat_history bot))) bot.

End Demo.

(** * Properties *)

(** ** The token budget *)

Section BudgetProperties.
Variable count_tokens : ChatMessage -> nat.

Local Abbreviation tokens := (history_tokens count_tokens).
Local Abbreviation window := (evict count_tokens).

Lemma history_tokens_cons (msg : ChatMessage) (h : list ChatMessage) :
  tokens (msg :: h) = count_tokens msg + tokens h.
Proof. reflexivity. Qed.

Lemma history_tokens_app (h1 h2 : list ChatMessage) :
  tokens (h1 ++ h2) = tokens h1 + tokens h2.
Proof. unfold history_tokens. apply sum_list_with_app. Qed.

Lemma evict_unfold (limit : nat) (h : list ChatMessage) :
  window limit h
  = if tokens h <=? limit then h
    else match h with [] => [] | _ :: newer => window limit newer end.
Proof. by destruct h. Qed.

Lemma evict_within (limit : nat) (h : list ChatMessage) :
  tokens h <= limit -> window limit h = h.
Proof.
  intros Hfit. rewrite evict_unfold.
  destruct (tokens h <=? limit) eqn:Hle; [done|].
  apply Nat.leb_gt in Hle. lia.
Qed.

Lemma evict_over (limit : nat) (msg : ChatMessage) (h : list ChatMessage) :
  limit < tokens (msg :: h) -> window limit (msg :: h) = window limit h.
Proof.
  intros Hover. rewrite evict_unfold.
  destruct (tokens (msg :: h) <=? limit) eqn:Hle; [|done].
  apply Nat.leb_le in Hle. lia.
Qed.

Lemma evict_fits (limit : nat) (h : list ChatMessage) :
  tokens (window limit h) <= limit.
Proof.
  induction h as [|msg h IH].
  - cbn. destruct (tokens [] <=? limit); cbn; lia.
  - destruct (decide (tokens (msg :: h) <= limit)) as [Hfit | Hover].
    + by rewrite evict_within.
    + rewrite evict_over by lia. exact IH.
Qed.

(** Eviction takes turns away from the old end only. *)
Lemma evict_suffix (limit : nat) (h : list ChatMessage) :
  window limit h `suffix_of` h.
Proof.
  induction h as [|msg h IH].
  - rewrite evict_within; [done | cbn; lia].
  - destruct (decide (tokens (msg :: h) <= limit)) as [Hfit | Hover].
    + by rewrite evict_within.
    + rewrite evict_over by lia. by apply suffix_cons_r.
Qed.

(** It stops as soon as the history fits: the last turn taken away could
    not have stayed. *)
Lemma evict_stops (limit : nat) (h older : list ChatMessage) (e : ChatMessage) :
  h = (older ++ [e]) ++ window limit h ->
  limit < tokens (e :: window limit h).
Proof.
  revert older. induction h as [|msg h IH]; intros older Heq.
  - by destruct older.
  - destruct (decide (tokens (msg :: h) <= limit)) as [Hfit | Hover].
    + rewrite evict_within in Heq by done.
      apply (f_equal length) in Heq. rewrite !length_app in Heq. cbn in Heq. lia.
    + rewrite evict_over in * by lia.
      destruct older as [|o older].
      * cbn in Heq. injection Heq as -> Hh.
        rewrite <- Hh. lia.
      * cbn in Heq. injection Heq as -> Hh. by apply (IH older).
Qed.

(** Evicting as the turns come in gives the budget's window on the whole
    sequence of turns. *)
Lemma evict_append (limit : nat) (h : list ChatMessage) (msg : ChatMessage) :
  window limit (window limit h ++ [msg]) = window limit (h ++ [msg]).
Proof.
  induction h as [|m h IH].
  - rewrite (evict_within limit []); [done | cbn; lia].
  - destruct (decide (tokens (m :: h) <= limit)) as [Hfit | Hover].
    + by rewrite (evict_within limit (m :: h)).
    + rewrite (evict_over limit m h) by lia. rewrite IH.
      change ((m :: h) ++ [msg]) with (m :: (h ++ [msg])).
      rewrite (evict_over limit m (h ++ [msg])); [done|].
      rewrite history_tokens_cons, history_tokens_app.
      rewrite history_tokens_cons in Hover. lia.
Qed.

(** With one token per character and a budget of 10, the oldest turn goes
    and the two newest stay. *)
Example evict_drops_the_oldest :
  evict (fun msg => String.length (content msg)) 10
    [mkMessage "user" "abcdef"; mkMessage "assistant" "ghij"; mkMessage "user" "klmno"]
  = [mkMessage "assistant" "ghij"; mkMessage "user" "klmno"].
Proof. reflexivity. Qed.

(** Evicting, appending and evicting again, or appending and evicting
    once. *)
Lemma evict_app (limit : nat) (h more : list ChatMessage) :
  window limit (window limit h ++ more) = window limit (h ++ more).
Proof.
  induction more as [|msg more IH] using rev_ind.
  - rewrite !app_nil_r. apply evict_within, evict_fits.
  - rewrite !app_assoc. rewrite <- (evict_append limit (window limit h ++ more)).
    rewrite IH. apply evict_append.
Qed.

(** Evicting after each of two appends, or once after both. *)
Lemma evict_append_two (limit : nat) (h : list ChatMessage) (m1 m2 : ChatMessage) :
  window limit (window limit (h ++ [m1]) ++ [m2]) = window limit (h ++ [m1; m2]).
Proof.
  rewrite evict_append. by rewrite <- app_assoc.
Qed.

End BudgetProperties.

(** ** The chat session *)

Section ChatProperties.
Context {World VectorStoreIndex Response Completion : Type}.
Variable query :
  @RetrieverQueryEngine VectorStoreIndex -> string -> World -> outcome Response * World.
Variable complete : OpenAI -> string -> World -> outcome Completion * World.
Variable Response_str : Response -> string.
Variable Completion_str : Completion -> string.

Local Abbreviation RagChatbot := (@RagChatbot VectorStoreIndex).
Local Abbreviation run_chat := (chat query complete Response_str Completion_str).

(** The retrieval call of [chat]. *)
Definition retrieval (self : RagChatbot) (user_input : string) : Py World Response :=
  retrieve_information query (bot_retriever self) user_input.

(** The prompt [chat] sends for [user_input] once retrieval returned [r]. *)
Definition prompt_of (self : RagChatbot) (user_input : string) (r : Response) : string :=
  build_prompt self (_format_chat_history self) (Response_str r) user_input.

(** The chatbot after a completed turn. *)
Definition after_turn (self : RagChatbot) (user_input answer : string) : RagChatbot :=
  set_chat_history
    (ChatMemoryBuffer.put "assistant" answer
       (ChatMemoryBuffer.put "user" user_input (chat_history self))) self.

Lemma chat_retrieval_raises (self : RagChatbot) user_input w e w1 :
  retrieval self user_input w = (Raise e, w1) ->
  run_chat user_input (self, w) = (Raise e, (self, w1)).
Proof.
  intros Hr. unfold chat, bind, gets, on_world. cbn.
  unfold retrieval in Hr. rewrite Hr. reflexivity.
Qed.

Lemma chat_completion_fails (self : RagChatbot) user_input w r w1 msg w2 :
  retrieval self user_input w = (Ok r, w1) ->
  complete (llm self) (prompt_of self user_input r) w1 = (Failed msg, w2) ->
  run_chat user_input (self, w) = (Raise (ExternalError msg), (self, w2)).
Proof.
  intros Hr Hc. unfold chat, bind, gets, on_world, call. cbn.
  unfold retrieval in Hr. rewrite Hr. cbn.
  unfold prompt_of in Hc. rewrite Hc. reflexivity.
Qed.

Lemma chat_returns (self : RagChatbot) user_input w r w1 c w2 :
  retrieval self user_input w = (Ok r, w1) ->
  complete (llm self) (prompt_of self user_input r) w1 = (Returned c, w2) ->
  run_chat user_input (self, w)
  = (Ok (Completion_str c), (after_turn self user_input (Completion_str c), w2)).
Proof.
  intros Hr Hc. unfold chat, bind, gets, on_world, call. cbn.
  unfold retrieval in Hr. rewrite Hr. cbn.
  unfold prompt_of in Hc. rewrite Hc. reflexivity.
Qed.

(** What [chat] does, by the outcome of its two provider calls. *)
Lemma chat_cases (self : RagChatbot) (user_input : string) (w : World) :
  run_chat user_input (self, w)
  = match retrieval self user_input w with
    | (Raise e, w1) => (Raise e, (self, w1))
    | (Ok r, w1) =>
        match complete (llm self) (prompt_of self user_input r) w1 with
        | (Failed msg, w2) => (Raise (ExternalError msg), (self, w2))
        | (Returned c, w2) =>
            (Ok (Completion_str c),
             (after_turn self user_input (Completion_str c), w2))
        end
    end.
Proof.
  destruct (retrieval self user_input w) as [[r | e] w1] eqn:Hr.
  - destruct (complete (llm self) (prompt_of self user_input r) w1)
      as [[c | msg] w2] eqn:Hc.
    + by apply (chat_returns _ _ _ r w1).
    + by apply (chat_completion_fails _ _ _ r w1).
  - by apply chat_retrieval_raises.
Qed.

(** The tokens of a history as the chatbot's buffer counts them, what its
    budget leaves of a history, and the two turns of an exchange. *)
Definition tokens_of (self : RagChatbot) (h : list ChatMessage) : nat :=
  history_tokens (tokenizer_fn (chat_history self)) h.

Definition budget_window (self : RagChatbot) (h : list ChatMessage)
  : list ChatMessage :=
  evict (tokenizer_fn (chat_history self)) (token_limit (chat_history self)) h.

Definition exchange (user_input answer : string) : list ChatMessage :=
  [mkMessage "user" user_input; mkMessage "assistant" answer].

Lemma after_turn_history (self : RagChatbot) user_input answer :
  history (after_turn self user_input answer)
  = budget_window self (history self ++ exchange user_input answer).
Proof.
  unfold history, after_turn, budget_window, exchange,
    ChatMemoryBuffer.get_messages, ChatMemoryBuffer.put.
  cbn [chat_history set_chat_history chat_store token_limit tokenizer_fn].
  apply evict_append_two.
Qed.

Lemma after_turn_fits (self : RagChatbot) user_input answer :
  tokens_of self (history self ++ exchange user_input answer)
    <= token_limit (chat_history self) ->
  history (after_turn self user_input answer)
  = history self ++ exchange user_input answer.
Proof.
  intros Hfit. rewrite after_turn_history. by apply evict_within.
Qed.

(** A turn fails with [e], leaving the providers in [w']: the retrieval call
    raises [e], or retrieval returns and the completion fails. *)
Definition turn_fails (self : RagChatbot) (user_input : string) (w : World)
    (e : exn) (w' : World) : Prop :=
  retrieval self user_input w = (Raise e, w')
  \/ exists r w1 msg,
      retrieval self user_input w = (Ok r, w1)
      /\ complete (llm self) (prompt_of self user_input r) w1 = (Failed msg, w')
      /\ e = ExternalError msg.


(** C2.  When the retrieval call or the completion raises, [chat] raises
    that error to its caller and the chatbot, its history included, is
    exactly as before the call; a later turn whose calls succeed is then
    carried out on that unchanged history. *)
Theorem chat_failure_keeps_history (self : RagChatbot) user_input w e w' :
  turn_fails self user_input w e w' ->
  run_chat user_input (self, w) = (Raise e, (self, w'))
  /\ forall next r w1 c w2,
      retrieval self next w' = (Ok r, w1) ->
      complete (llm self) (prompt_of self next r) w1 = (Returned c, w2) ->
      exists self',
        run_chat next (self, w') = (Ok (Completion_str c), (self', w2))
        /\ history self'
           = budget_window self (history self ++ exchange next (Completion_str c)).
Proof.
  intros Hfail. split.
  - destruct Hfail as [Hr | (r & w1 & msg & Hr & Hc & ->)].
    + by apply chat_retrieval_raises.
    + by apply (chat_completion_fails _ _ _ r w1).
  - intros next r w1 c w2 Hr Hc.
    exists (after_turn self next (Completion_str c)). split.
    + by apply (chat_returns _ _ _ r w1).
    + apply after_turn_history.
Qed.

(** C9.  Whatever the chatbot holds, after [clear_history] the history read
    by [get_chat_history] is the empty sequence: the buffer holds no turn,
    the next prompt is built on the placeholder for an empty history, and
    the rest of the chatbot, the budget included, is as it was. *)
Theorem clear_then_get_is_empty (self : RagChatbot) :
  get_chat_history (clear_history self) = []
  /\ history (clear_history self) = []
  /\ _format_chat_history (clear_history self) = "No hay historial de chat previo."
  /\ token_limit (chat_history (clear_history self)) = token_limit (chat_history self)
  /\ bot_retriever (clear_history self) = bot_retriever self
  /\ llm (clear_history self) = llm self.
Proof.
  assert (history (clear_history self) = []) as Hempty.
  { unfold history, clear_history, set_chat_history. cbn [chat_history].
    unfold ChatMemoryBuffer.get_messages, ChatMemoryBuffer.reset. reflexivity. }
  split.
  - unfold get_chat_history. fold (history (clear_history self)).
    rewrite Hempty. reflexivity.
  - split; [exact Hempty|]. split.
    + unfold _format_chat_history. fold (history (clear_history self)).
      rewrite Hempty. reflexivity.
    + repeat split.
Qed.

(** What happens to a session, one step at a time: a turn of the chat, or
    the reset of its history. *)
Inductive session_step : Type :=
| Turn (user_input : string)
| Clear.

Definition run_step (s : RagChatbot * World) (step : session_step)
  : RagChatbot * World :=
  match step with
  | Turn user_input => snd (run_chat user_input s)
  | Clear => (clear_history (fst s), snd s)
  end.

Definition run_steps (steps : list session_step) (s : RagChatbot * World)
  : RagChatbot * World :=
  foldl run_step s steps.

(** The buffer has the budget and the tokenizer it was made with, and its
    history is within the budget. *)
Definition within_budget (tokenizer : ChatMessage -> nat) (limit : nat)
    (self : RagChatbot) : Prop :=
  token_limit (chat_history self) = limit
  /\ tokenizer_fn (chat_history self) = tokenizer
  /\ history_tokens tokenizer (history self) <= limit.

Lemma run_step_within_budget tokenizer limit (s : RagChatbot * World) step :
  within_budget tokenizer limit (fst s) ->
  within_budget tokenizer limit (fst (run_step s step)).
Proof.
  intros (Hl & Ht & Hh). destruct s as [self w]. cbn [fst] in *.
  destruct step as [user_input|]; cbn [run_step fst snd].
  - rewrite chat_cases.
    destruct (retrieval self user_input w) as [[r | e] w1]; [|done].
    destruct (complete (llm self) (prompt_of self user_input r) w1)
      as [[c | msg] w2]; [|done].
    cbn [fst snd]. split; [done|]. split; [done|].
    rewrite after_turn_history. unfold budget_window. rewrite Hl, Ht.
    apply evict_fits.
  - split; [done|]. split; [done|]. cbn. lia.
Qed.

Lemma run_steps_within_budget tokenizer limit steps (s : RagChatbot * World) :
  within_budget tokenizer limit (fst s) ->
  within_budget tokenizer limit (fst (run_steps steps s)).
Proof.
  revert s. induction steps as [|step steps IH]; intros s Hs; [done|].
  cbn [run_steps foldl]. apply IH. by apply run_step_within_budget.
Qed.

(** C6.  The chatbot is constructed with a budget of 4096 tokens.  From a
    new chatbot and through any sequence of chat turns, whatever their
    outcomes, and of resets, the budget stays 4096 and the history stays
    within it.  At each append the new history is the old one with the
    turn added, less the turns [evicted], which are its oldest: none when
    the result fits, and otherwise no more than needed, since the last of
    them could not have stayed. *)
Theorem history_within_token_budget
    (tokenizer : ChatMessage -> nat)
    (retriever : @InformationRetriever VectorStoreIndex)
    (steps : list session_step) (w : World) :
  let self := fst (run_steps steps (RagChatbot_init tokenizer retriever, w)) in
  token_limit (chat_history self) = 4096
  /\ history_tokens tokenizer (history self) <= 4096
  /\ forall r c,
      let after := ChatMemoryBuffer.put r c (chat_history self) in
      exists evicted,
        history self ++ [mkMessage r c] = evicted ++ chat_store after
        /\ history_tokens tokenizer (chat_store after) <= 4096
        /\ (history_tokens tokenizer (history self ++ [mkMessage r c]) <= 4096 ->
            evicted = [])
        /\ (forall older e,
              evicted = older ++ [e] ->
              4096 < history_tokens tokenizer (e :: chat_store after)).
Proof.
  cbn zeta.
  destruct (run_steps_within_budget tokenizer 4096 steps
              (RagChatbot_init tokenizer retriever, w)) as (Hl & Ht & Hh).
  { split; [reflexivity|]. split; [reflexivity|]. cbn. lia. }
  set (self := fst (run_steps steps (RagChatbot_init tokenizer retriever, w))) in *.
  split; [done|]. split; [done|]. intros r c.
  unfold ChatMemoryBuffer.put. cbn [chat_store]. rewrite Hl, Ht.
  unfold history, ChatMemoryBuffer.get_messages.
  destruct (evict_suffix tokenizer 4096 (chat_store (chat_history self) ++ [mkMessage r c]))
    as [evicted Hev].
  exists evicted. split; [done|]. split; [apply evict_fits|]. split.
  - intros Hfit. rewrite evict_within in Hev by done.
    apply (f_equal length) in Hev. rewrite !length_app in Hev.
    destruct evicted; [done | cbn in Hev; lia].
  - intros older e ->. by apply (evict_stops tokenizer 4096 _ older).
Qed.

End ChatProperties.

(** ** The file system *)

Lemma parent_snoc (p : Path) (x : string) : parent (p ++ [x]) = p.
Proof. unfold parent. apply removelast_last. Qed.

Lemma lookup_node_snoc (p : Path) (x : string) (fs : FS) :
  lookup_node (p ++ [x]) fs = fs !! (p ++ [x]).
Proof. unfold lookup_node. by destruct p. Qed.

Lemma is_dir_lookup (p : Path) (fs : FS) :
  is_dir p fs = true <-> lookup_node p fs = Some Dir.
Proof.
  unfold is_dir. destruct (lookup_node p fs) as [[d|]|]; split; congruence.
Qed.

(** [os.mkdir] changes the disk only when it succeeds, and then adds one
    directory. *)
Lemma os_mkdir_spec (p : Path) (fs : FS) :
  (exists e, os_mkdir p fs = (Raise e, fs))
  \/ (os_mkdir p fs = (Ok tt, <[p := Dir]> fs)
      /\ lookup_node p fs = None
      /\ lookup_node (parent p) fs = Some Dir).
Proof.
  unfold os_mkdir. destruct (lookup_node p fs) as [n|] eqn:Hp; [eauto|].
  destruct (lookup_node (parent p) fs) as [[d|]|] eqn:Hq; eauto.
Qed.

(** What one disk is to an earlier one when directories were only added. *)
Definition grown_from (fs fs' : FS) : Prop :=
  fs ⊆ fs' /\ forall q n, fs' !! q = Some n -> fs !! q = Some n \/ n = Dir.

Lemma grown_from_refl (fs : FS) : grown_from fs fs.
Proof. split; [done | eauto]. Qed.

Lemma grown_from_trans (fs1 fs2 fs3 : FS) :
  grown_from fs1 fs2 -> grown_from fs2 fs3 -> grown_from fs1 fs3.
Proof.
  intros [S1 A1] [S2 A2]. split; [by etrans|].
  intros q n H3. destruct (A2 q n H3) as [H2 | ->]; [by apply A1 | by right].
Qed.

Lemma grown_from_insert (p : Path) (fs : FS) :
  fs !! p = None -> grown_from fs (<[p := Dir]> fs).
Proof.
  intros Hp. split; [by apply insert_subseteq|].
  intros q n. destruct (decide (p = q)) as [<- | Hne].
  - rewrite lookup_insert_eq. intros [= <-]. by right.
  - rewrite lookup_insert_ne by done. by left.
Qed.

Lemma grown_from_lookup_node (fs fs' : FS) (q : Path) (n : node) :
  grown_from fs fs' -> lookup_node q fs = Some n -> lookup_node q fs' = Some n.
Proof.
  intros [Hs _]. destruct q as [|x q]; [done|]. cbn.
  intros H. by eapply lookup_weaken.
Qed.

Lemma os_mkdir_grows (p : Path) (fs : FS) r fs' :
  os_mkdir p fs = (r, fs') -> grown_from fs fs'.
Proof.
  destruct (os_mkdir_spec p fs) as [[e He] | (He & Hp & _)]; rewrite He.
  - intros [= _ <-]. apply grown_from_refl.
  - intros [= _ <-]. apply grown_from_insert.
    destruct p; [discriminate | exact Hp].
Qed.

Lemma os_mkdir_ok_is_dir (p : Path) (fs fs' : FS) u :
  os_mkdir p fs = (Ok u, fs') -> is_dir p fs' = true.
Proof.
  destruct (os_mkdir_spec p fs) as [[e He] | (He & Hp & _)]; rewrite He; [done|].
  intros [= _ <-]. apply is_dir_lookup.
  destruct p; [discriminate|]. cbn. apply lookup_insert_eq.
Qed.

Lemma mkdir_exist_ok_spec (p : Path) (fs : FS) r fs' :
  mkdir_exist_ok p fs = (r, fs') ->
  grown_from fs fs' /\ (is_ok r = true -> is_dir p fs' = true).
Proof.
  unfold mkdir_exist_ok. destruct (os_mkdir p fs) as [r0 fs0] eqn:Hm.
  pose proof (os_mkdir_grows _ _ _ _ Hm) as Hg.
  destruct r0 as [u | e].
  - intros [= <- <-]. split; [done|]. intros _. by eapply os_mkdir_ok_is_dir.
  - destruct e; try (destruct (is_dir p fs0) eqn:Hd);
      intros [= <- <-]; split; try done.
Qed.

Lemma mkdir_parents_rev_spec (rev_p : list string) (fs : FS) r fs' :
  mkdir_parents_rev rev_p fs = (r, fs') ->
  grown_from fs fs' /\ (is_ok r = true -> is_dir (reverse rev_p) fs' = true).
Proof.
  revert fs r fs'. induction rev_p as [|x rp IH]; intros fs r fs'; cbn [mkdir_parents_rev].
  - destruct (os_mkdir (reverse []) fs) as [r0 fs0] eqn:Hm.
    pose proof (os_mkdir_grows _ _ _ _ Hm) as Hg.
    destruct r0 as [u | e].
    + intros [= <- <-]. split; [done|]. intros _. by eapply os_mkdir_ok_is_dir.
    + destruct e; try (destruct (is_dir (reverse []) fs0) eqn:Hd);
        intros [= <- <-]; split; try done.
  - destruct (os_mkdir (reverse (x :: rp)) fs) as [r0 fs0] eqn:Hm.
    pose proof (os_mkdir_grows _ _ _ _ Hm) as Hg.
    destruct r0 as [u | e].
    + intros [= <- <-]. split; [done|]. intros _. by eapply os_mkdir_ok_is_dir.
    + destruct e; try (destruct (is_dir (reverse (x :: rp)) fs0) eqn:Hd;
        intros [= <- <-]; split; done).
      destruct (mkdir_parents_rev rp fs0) as [r1 fs1] eqn:Hrec.
      destruct (IH _ _ _ Hrec) as [Hg1 _].
      destruct r1 as [u | e].
      * intros Hleaf. destruct (mkdir_exist_ok_spec _ _ _ _ Hleaf) as [Hg2 Hd].
        split; [|done]. eapply grown_from_trans; [|exact Hg2].
        by eapply grown_from_trans.
      * intros [= <- <-]. split; [|done]. by eapply grown_from_trans.
Qed.

(** Nothing on the way to [p] is a regular file. *)
Definition clear_way (p : Path) (fs : FS) : Prop :=
  forall q data, q `prefix_of` p -> lookup_node q fs <> Some (File data).

Lemma clear_way_parent (p : Path) (x : string) (fs : FS) :
  clear_way (p ++ [x]) fs -> clear_way p fs.
Proof.
  intros Hc q data Hq. apply Hc. by apply prefix_app_r.
Qed.

Lemma clear_way_grown (p : Path) (fs fs' : FS) :
  grown_from fs fs' -> clear_way p fs -> clear_way p fs'.
Proof.
  intros [_ Ha] Hc q data Hq Hl. destruct q as [|y q]; [discriminate|].
  cbn in Hl. destruct (Ha _ _ Hl) as [H | H]; [|discriminate].
  by apply (Hc (y :: q) data).
Qed.

Lemma mkdir_exist_ok_succeeds (p : Path) (fs : FS) :
  clear_way p fs -> is_dir (parent p) fs = true ->
  exists fs', mkdir_exist_ok p fs = (Ok tt, fs').
Proof.
  intros Hc Hpar. apply is_dir_lookup in Hpar.
  unfold mkdir_exist_ok, os_mkdir, is_dir.
  destruct (lookup_node p fs) as [[d|]|] eqn:Hp.
  - exfalso. by apply (Hc p d).
  - cbn. rewrite Hp. eauto.
  - rewrite Hpar. eauto.
Qed.

Lemma mkdir_parents_rev_succeeds (rev_p : list string) (fs : FS) :
  clear_way (reverse rev_p) fs ->
  exists fs', mkdir_parents_rev rev_p fs = (Ok tt, fs').
Proof.
  revert fs. induction rev_p as [|x rp IH]; intros fs Hc.
  - cbn. eauto.
  - cbn [mkdir_parents_rev]. rewrite reverse_cons in *.
    unfold os_mkdir at 1. rewrite lookup_node_snoc, parent_snoc.
    destruct (fs !! (reverse rp ++ [x])) as [[d|]|] eqn:Hp.
    + exfalso. apply (Hc (reverse rp ++ [x]) d); [done|].
      by rewrite lookup_node_snoc.
    + unfold is_dir. rewrite lookup_node_snoc, Hp. eauto.
    + destruct (lookup_node (reverse rp) fs) as [[d|]|] eqn:Hq.
      * exfalso. apply (Hc (reverse rp) d); [by apply prefix_app_r | done].
      * eauto.
      * destruct (IH fs (clear_way_parent _ _ _ Hc)) as [fs1 H1]. rewrite H1.
        destruct (mkdir_parents_rev_spec _ _ _ _ H1) as [Hg Hd].
        apply mkdir_exist_ok_succeeds.
        -- by eapply clear_way_grown.
        -- rewrite parent_snoc. by apply Hd.
Qed.

(** [mkdir(parents=True, exist_ok=True)] leaves an existing directory as it
    is. *)
Lemma mkdir_parents_existing (p : Path) (fs : FS) :
  is_dir p fs = true -> mkdir_parents p fs = (Ok tt, fs).
Proof.
  intros Hd. unfold mkdir_parents.
  assert (os_mkdir p fs = (Raise (FileExistsError (path_str p)), fs)) as Hm.
  { unfold os_mkdir. apply is_dir_lookup in Hd. by rewrite Hd. }
  destruct (reverse p) as [|x rp] eqn:Hrev.
  - apply (f_equal reverse) in Hrev. rewrite reverse_involutive in Hrev. subst p.
    cbn. reflexivity.
  - cbn [mkdir_parents_rev]. rewrite <- Hrev, reverse_involutive, Hm, Hd. reflexivity.
Qed.

(** ** The indexer *)

Section IndexerProperties.
Context {World VectorStoreIndex Document : Type}.
Variable load_data : Path -> FS -> outcome (list Document).
Variable from_documents : list Document -> World -> outcome VectorStoreIndex * World.
Variable persist : VectorStoreIndex -> Path -> FS -> outcome unit * FS.
Variable load_index_from_storage : Path -> FS -> outcome VectorStoreIndex.
Variable retriever_objects : VectorStoreIndex -> nat -> World -> outcome unit.
Variable chatbot_objects : World -> outcome unit.
Variable default_tokenizer : ChatMessage -> nat.

Local Abbreviation Machine := (@Machine World VectorStoreIndex).

(** The machine with another disk. *)
Definition with_disk (fs : FS) (m : Machine) : Machine :=
  {| indexer := indexer m; disk := fs; world := world m |}.

(** The machine with a newly constructed indexer for [d]. *)
Definition with_new_indexer (d : Path) (m : Machine) : Machine :=
  with_indexer (fun _ => DocumentIndexer_init d default_index_name) m.

Lemma machine_eta (m : Machine) :
  {| indexer := indexer m; disk := disk m; world := world m |} = m.
Proof. by destruct m. Qed.

Lemma load_documents_missing (m : Machine) :
  lookup_node (data_dir (indexer m)) (disk m) = None ->
  load_documents load_data m
  = (Raise (FileNotFoundError (missing_dir_msg (data_dir (indexer m)))), m).
Proof.
  intros Hd. unfold load_documents, bind, gets, read_disk, path_exists, raise.
  cbn. by rewrite Hd.
Qed.

Lemma load_documents_empty (m : Machine) :
  lookup_node (data_dir (indexer m)) (disk m) = Some Dir ->
  entries (data_dir (indexer m)) (disk m) = [] ->
  load_documents load_data m
  = (Raise (ValueError (empty_dir_msg (data_dir (indexer m)))), m).
Proof.
  intros Hd He.
  unfold load_documents, bind, gets, read_disk, path_exists, raise, iterdir.
  cbn. rewrite Hd. cbn. rewrite Hd. cbn. by rewrite He.
Qed.

Lemma load_documents_nonempty (m : Machine) :
  lookup_node (data_dir (indexer m)) (disk m) = Some Dir ->
  entries (data_dir (indexer m)) (disk m) <> [] ->
  load_documents load_data m
  = (of_outcome (load_data (data_dir (indexer m)) (disk m)), m).
Proof.
  intros Hd He.
  unfold load_documents, bind, gets, read_disk, path_exists, raise, iterdir, ret.
  cbn. rewrite Hd. cbn. rewrite Hd. cbn.
  destruct (entries (data_dir (indexer m)) (disk m)); [done|]. cbn.
  by destruct (load_data (data_dir (indexer m)) (disk m)).
Qed.

(** [load_documents] only reads. *)
Lemma load_documents_reads (m : Machine) :
  snd (load_documents load_data m) = m.
Proof.
  unfold load_documents, bind, gets, read_disk, path_exists, raise, iterdir, ret.
  cbn. destruct (lookup_node (data_dir (indexer m)) (disk m)) as [[d|]|] eqn:Hd;
    cbn; rewrite ?Hd; cbn; try done.
  destruct (entries (data_dir (indexer m)) (disk m)); cbn; [done|].
  by destruct (load_data (data_dir (indexer m)) (disk m)).
Qed.

Lemma create_index_raises (m : Machine) e :
  fst (load_documents load_data m) = Raise e ->
  create_index load_data from_documents m = (Raise e, m).
Proof.
  intros He. unfold create_index, bind.
  pose proof (load_documents_reads m) as Hs.
  destruct (load_documents load_data m) as [r m']. cbn in *. by subst.
Qed.

Lemma create_and_save_raises (m : Machine) e m' persist_dir :
  create_index load_data from_documents m = (Raise e, m') ->
  create_and_save load_data from_documents persist persist_dir m = (Raise e, m').
Proof. intros He. unfold create_and_save, bind. by rewrite He. Qed.

Lemma new_indexer_run (d : Path) (m : Machine) :
  new_indexer d m = (Ok tt, with_new_indexer d m).
Proof. reflexivity. Qed.

(** C3.  For a data directory that is a directory or is absent,
    [load_documents] raises [FileNotFoundError] (the spec's
    [NotFoundError]) when it does not exist and the [ValueError] of an empty
    corpus (the spec's [EmptyCorpusError]) when it exists and has no entry;
    when it exists and has entries, neither is raised and the outcome is
    that of the directory reader.  Nothing is changed in any of the three
    cases. *)
Theorem load_documents_directory_checks (m : Machine) :
  let d := data_dir (indexer m) in
  (lookup_node d (disk m) = None ->
   load_documents load_data m = (Raise (FileNotFoundError (missing_dir_msg d)), m))
  /\ (lookup_node d (disk m) = Some Dir -> entries d (disk m) = [] ->
      load_documents load_data m = (Raise (ValueError (empty_dir_msg d)), m))
  /\ (lookup_node d (disk m) = Some Dir -> entries d (disk m) <> [] ->
      load_documents load_data m = (of_outcome (load_data d (disk m)), m)
      /\ (forall msg, fst (load_documents load_data m) <> Raise (FileNotFoundError msg))
      /\ (forall msg, fst (load_documents load_data m) <> Raise (ValueError msg))).
Proof.
  cbn zeta. split; [apply load_documents_missing|].
  split; [apply load_documents_empty|].
  intros Hd He. rewrite (load_documents_nonempty m Hd He). split; [done|].
  split; intros msg; cbn;
    by destruct (load_data (data_dir (indexer m)) (disk m)).
Qed.

(** The corpus directory [d] cannot be indexed, and [e] is the error that
    reports it: it does not exist, or it exists and has no entry. *)
Definition corpus_unusable (d : Path) (fs : FS) (e : exn) : Prop :=
  (lookup_node d fs = None /\ e = FileNotFoundError (missing_dir_msg d))
  \/ (lookup_node d fs = Some Dir /\ entries d fs = []
      /\ e = ValueError (empty_dir_msg d)).

Lemma load_documents_unusable (m : Machine) e :
  corpus_unusable (data_dir (indexer m)) (disk m) e ->
  fst (load_documents load_data m) = Raise e.
Proof.
  intros [[Hd ->] | (Hd & He & ->)].
  - by rewrite load_documents_missing.
  - by rewrite load_documents_empty.
Qed.

(** C4.  With a missing or empty corpus directory, [create_index] raises
    the corresponding error and nothing has changed when it does: no
    provider was called to build an index, the indexer's [index] is what it
    was (unset, for an indexer that had none), and the disk is the same.
    The two lines that build and persist an index stop at that error, so
    that nothing is written; the front end that runs them on a new indexer
    installs no chatbot and leaves the indexer without an index. *)
Theorem create_index_unusable_corpus (m : Machine) (persist_dir : Path) (e : exn) :
  corpus_unusable (data_dir (indexer m)) (disk m) e ->
  create_index load_data from_documents m = (Raise e, m)
  /\ create_and_save load_data from_documents persist persist_dir m = (Raise e, m)
  /\ (stored_index (indexer m) = None ->
      stored_index (indexer (snd (create_index load_data from_documents m))) = None)
  /\ disk (snd (create_and_save load_data from_documents persist persist_dir m)) = disk m
  /\ forall st,
      try_install
        (chatbot_from_corpus load_data from_documents persist
           retriever_objects chatbot_objects default_tokenizer
           (data_dir (indexer m)) persist_dir) st m
      = (st, with_new_indexer (data_dir (indexer m)) m).
Proof.
  intros Hbad.
  pose proof (create_index_raises m e (load_documents_unusable m e Hbad)) as Hc.
  pose proof (create_and_save_raises m e m persist_dir Hc) as Hs.
  rewrite Hc, Hs. repeat split; try done.
  intros st. unfold try_install, chatbot_from_corpus, bind.
  rewrite new_indexer_run.
  set (m1 := with_new_indexer (data_dir (indexer m)) m).
  assert (corpus_unusable (data_dir (indexer m1)) (disk m1) e) as Hbad1 by exact Hbad.
  pose proof (create_index_raises m1 e (load_documents_unusable m1 e Hbad1)) as Hc1.
  by rewrite (create_and_save_raises m1 e m1 persist_dir Hc1).
Qed.

Lemma load_index_missing (m : Machine) (persist_dir : Path) :
  lookup_node persist_dir (disk m) = None ->
  load_index load_index_from_storage persist_dir m
  = (Raise (FileNotFoundError (no_index_found_msg persist_dir)), m).
Proof.
  intros Hd. unfold load_index, bind, read_disk, path_exists, raise.
  cbn. by rewrite Hd.
Qed.

(** What [load_index] does in each case of the disk and of the storage
    backend. *)
Lemma load_index_cases (m : Machine) (persist_dir : Path) :
  load_index load_index_from_storage persist_dir m
  = match lookup_node persist_dir (disk m) with
    | None => (Raise (FileNotFoundError (no_index_found_msg persist_dir)), m)
    | Some _ =>
        match load_index_from_storage persist_dir (disk m) with
        | Returned i => (Ok i, with_indexer (set_index i) m)
        | Failed msg => (Raise (ExternalError msg), m)
        end
    end.
Proof.
  unfold load_index, bind, read_disk, path_exists, raise, modify, ret.
  cbn. destruct (lookup_node persist_dir (disk m)); cbn; [|done].
  by destruct (load_index_from_storage persist_dir (disk m)).
Qed.

(** C5.  On a persist path that does not exist, [load_index] raises
    [FileNotFoundError] (the spec's [NotFoundError]) and changes nothing,
    and the construction of the chatbot from the persisted index stops
    there: no chatbot is installed.  Whenever [load_index] returns, what it
    returns is the index the storage backend loaded, whole, and that index
    is the one stored in the indexer; whenever it raises, the indexer holds
    what it held before. *)
Theorem load_index_missing_or_whole (m : Machine) (persist_dir : Path) :
  (lookup_node persist_dir (disk m) = None ->
   load_index load_index_from_storage persist_dir m
   = (Raise (FileNotFoundError (no_index_found_msg persist_dir)), m)
   /\ forall d st,
       chatbot_from_storage load_index_from_storage
         retriever_objects chatbot_objects default_tokenizer d persist_dir m
       = (Raise (FileNotFoundError (no_index_found_msg persist_dir)),
          with_new_indexer d m)
       /\ fst (try_install
                 (chatbot_from_storage load_index_from_storage
                    retriever_objects chatbot_objects default_tokenizer d persist_dir)
                 st m) = st)
  /\ (forall i m',
        load_index load_index_from_storage persist_dir m = (Ok i, m') ->
        load_index_from_storage persist_dir (disk m) = Returned i
        /\ stored_index (indexer m') = Some i
        /\ m' = with_indexer (set_index i) m)
  /\ (forall e m',
        load_index load_index_from_storage persist_dir m = (Raise e, m') -> m' = m).
Proof.
  split; [|split].
  - intros Hd. split; [by apply load_index_missing|]. intros d st.
    assert (chatbot_from_storage load_index_from_storage
              retriever_objects chatbot_objects default_tokenizer d persist_dir m
            = (Raise (FileNotFoundError (no_index_found_msg persist_dir)),
               with_new_indexer d m)) as Hc.
    { unfold chatbot_from_storage, bind. rewrite new_indexer_run.
      by rewrite (load_index_missing (with_new_indexer d m) persist_dir Hd). }
    split; [exact Hc|]. unfold try_install. by rewrite Hc.
  - intros i m'. rewrite load_index_cases.
    destruct (lookup_node persist_dir (disk m)); [|done].
    destruct (load_index_from_storage persist_dir (disk m)); [|done].
    by intros [= <- <-].
  - intros e m'. rewrite load_index_cases.
    destruct (lookup_node persist_dir (disk m)); [|by intros [= _ <-]].
    destruct (load_index_from_storage persist_dir (disk m)); [done|].
    by intros [= _ <-].
Qed.

(** The page's loading block installs no chatbot when ["storage"] is
    missing. *)
Lemma streamlit_load_chatbot_missing (st : @SessionState VectorStoreIndex) (m : Machine) :
  lookup_node ["storage"] (disk m) = None ->
  fst (streamlit_load_chatbot load_index_from_storage
         retriever_objects chatbot_objects default_tokenizer st m) = st.
Proof.
  intros Hd. unfold streamlit_load_chatbot.
  destruct (chatbot st); [done|]. destruct (index_created st); [done|].
  unfold try_install, chatbot_from_storage, bind. rewrite new_indexer_run.
  by rewrite (load_index_missing (with_new_indexer ["data"] m) ["storage"] Hd).
Qed.

(** The command-line front end loads only from a persist directory that is
    there; with none and an unusable corpus it stops without a chatbot and
    without having written anything. *)
Lemma main_setup_unusable_corpus (m : Machine) (d persist_dir : Path) (e : exn) :
  corpus_unusable d (disk m) e ->
  lookup_node persist_dir (disk m) = None ->
  main_setup load_data from_documents persist load_index_from_storage
    retriever_objects chatbot_objects default_tokenizer d persist_dir m
  = (Ok None, with_new_indexer d m).
Proof.
  intros Hbad Hp. unfold main_setup, main_obtain_index, bind, read_disk, path_exists.
  rewrite new_indexer_run. cbn [disk with_new_indexer with_indexer]. rewrite Hp.
  set (m1 := with_new_indexer d m).
  assert (corpus_unusable (data_dir (indexer m1)) (disk m1) e) as Hbad1 by exact Hbad.
  pose proof (create_index_raises m1 e (load_documents_unusable m1 e Hbad1)) as Hc1.
  cbn [negb]. by rewrite (create_and_save_raises m1 e m1 persist_dir Hc1).
Qed.

Lemma save_index_unset (m : Machine) (persist_dir : Path) :
  stored_index (indexer m) = None ->
  save_index persist persist_dir m = (Raise (ValueError no_index_msg), m).
Proof.
  intros Hi. unfold save_index, bind, gets. cbn. by rewrite Hi.
Qed.

Lemma save_index_set (m : Machine) (persist_dir : Path) i fs1 :
  stored_index (indexer m) = Some i ->
  mkdir_parents persist_dir (disk m) = (Ok tt, fs1) ->
  save_index persist persist_dir m
  = (of_outcome (fst (persist i persist_dir fs1)),
     with_disk (snd (persist i persist_dir fs1)) m).
Proof.
  intros Hi Hm. unfold save_index, bind, gets, on_disk. cbn. rewrite Hi. cbn.
  rewrite Hm. cbn. by destruct (persist i persist_dir fs1).
Qed.

(** C10.  Without an index, [save_index] raises a [ValueError] whose
    message says that there is no index to save, and the machine, its disk
    included, is unchanged.  With an index [i], and no regular file on the
    way to the persist directory, the directory is there after
    [mkdir(parents=True, exist_ok=True)] (made, with its missing parents,
    when it was not; the disk untouched when it was), nothing that was on
    the disk is lost, and the storage backend persists [i] into that
    directory: its outcome and its disk are those of [save_index]. *)
Theorem save_index_needs_index_and_persists (m : Machine) (persist_dir : Path) :
  (stored_index (indexer m) = None ->
   save_index persist persist_dir m
   = (Raise (ValueError "No hay un índice para guardar. Ejecuta create_index primero."),
      m))
  /\ (forall i,
        stored_index (indexer m) = Some i ->
        clear_way persist_dir (disk m) ->
        exists fs1,
          mkdir_parents persist_dir (disk m) = (Ok tt, fs1)
          /\ is_dir persist_dir fs1 = true
          /\ grown_from (disk m) fs1
          /\ (is_dir persist_dir (disk m) = true -> fs1 = disk m)
          /\ save_index persist persist_dir m
             = (of_outcome (fst (persist i persist_dir fs1)),
                with_disk (snd (persist i persist_dir fs1)) m)).
Proof.
  split; [apply save_index_unset|].
  intros i Hi Hway.
  destruct (mkdir_parents_rev_succeeds (reverse persist_dir) (disk m)) as [fs1 Hm].
  { by rewrite reverse_involutive. }
  exists fs1. fold (mkdir_parents persist_dir (disk m)) in Hm.
  destruct (mkdir_parents_rev_spec _ _ _ _ Hm) as [Hg Hd].
  rewrite reverse_involutive in Hd.
  split; [done|]. split; [by apply Hd|]. split; [done|]. split.
  - intros Hex. rewrite (mkdir_parents_existing _ _ Hex) in Hm. congruence.
  - by apply save_index_set.
Qed.

End IndexerProperties.

(** ** The retriever *)

Lemma slice_to_length (n : nat) (s : string) :
  String.length (slice_to n s) = n `min` String.length s.
Proof.
  revert s. induction n as [|n IH]; intros [|c s]; cbn; auto.
Qed.

Lemma slice_to_prefix (n : nat) (s : string) :
  exists rest, s = slice_to n s +:+ rest.
Proof.
  revert s. induction n as [|n IH]; intros s.
  - exists s. by destruct s.
  - destruct s as [|c s]; [by exists ""|].
    destruct (IH s) as [rest Hrest]. exists rest.
    change (String c s = String c (slice_to n s +:+ rest)). by rewrite <- Hrest.
Qed.

Lemma slice_to_all (n : nat) (s : string) :
  String.length s <= n -> slice_to n s = s.
Proof.
  revert s. induction n as [|n IH]; intros [|c s]; cbn; intros Hlen; try done.
  - lia.
  - f_equal. apply IH. lia.
Qed.

Lemma append_length (s t : string) :
  String.length (s +:+ t) = String.length s + String.length t.
Proof.
  induction s as [|c s IH]; [done|].
  change (S (String.length (s +:+ t)) = S (String.length s) + String.length t).
  by rewrite IH.
Qed.

Section RetrieverProperties.
Context {World VectorStoreIndex Score : Type}.
Variable retrieve :
  @VectorIndexRetriever VectorStoreIndex -> string -> World
  -> outcome (list (NodeWithScore Score)) * World.

(** What the debug view shows of one node: its score as it is, and the
    whole text of a chunk of at most 100 characters, or else the first 100
    characters of the chunk followed by three dots. *)
Definition summarises (node : NodeWithScore Score) (s : NodeSummary Score) : Prop :=
  (forall v, score_attr node = Some v -> summary_score s = v)
  /\ (String.length (text node) <= 100 -> text_preview s = text node)
  /\ (100 < String.length (text node) ->
      text_preview s = slice_to 100 (text node) +:+ "..."
      /\ String.length (slice_to 100 (text node)) = 100
      /\ String.length (text_preview s) = 103
      /\ exists rest, text node = slice_to 100 (text node) +:+ rest).

Lemma node_summary_summarises (node : NodeWithScore Score) :
  summarises node (node_summary node).
Proof.
  unfold summarises, node_summary. cbn [summary_score text_preview].
  unfold node_score, node_text_preview.
  split; [by intros v ->|]. split.
  - intros Hlen. destruct (100 <? String.length (text node)) eqn:Hlt; [|done].
    apply Nat.ltb_lt in Hlt. lia.
  - intros Hlen. apply Nat.ltb_lt in Hlen as Hlt. rewrite Hlt.
    assert (String.length (slice_to 100 (text node)) = 100) as H100.
    { rewrite slice_to_length. lia. }
    split; [done|]. split; [done|]. split.
    + rewrite append_length, H100. reflexivity.
    + apply slice_to_prefix.
Qed.

(** C7, as the code has it.  For every query on which the retriever
    returns, the debug view counts the retrieved nodes and gives, for each
    of them in order, its raw score and a preview: the whole text of a chunk
    of at most 100 characters, and for a longer chunk its first 100
    characters followed by the marker ["..."], 103 characters in all. *)
Theorem retrieval_context_previews
    (self : @InformationRetriever VectorStoreIndex) query_text w r nodes w' :
  retriever self = Some r ->
  retrieve r query_text w = (Returned nodes, w') ->
  exists info,
    get_retrieval_context retrieve self query_text w = (Ok info, w')
    /\ num_nodes_retrieved info = length nodes
    /\ Forall2 summarises nodes (nodes_summary info).
Proof.
  intros Hr Hn. unfold get_retrieval_context. rewrite Hr, Hn.
  eexists. split; [reflexivity|]. split; [reflexivity|].
  cbn [nodes_summary]. clear Hn. induction nodes as [|node nodes IH]; constructor.
  - apply node_summary_summarises.
  - exact IH.
Qed.

End RetrieverProperties.

(** ** Sharing between the history and what [get_chat_history] returns *)

Section Sharing.
Import Heap.

Implicit Types (h : heap) (v : value) (o : object) (l : loc).

Lemma read_message_mono h h' v msg :
  h `prefix_of` h' -> read_message h v = Some msg -> read_message h' v = Some msg.
Proof.
  intros [ext ->]. destruct v as [s | l]; [done|]. cbn.
  destruct (h !! l) as [o|] eqn:Hl; [|done].
  by rewrite (lookup_app_l_Some _ _ _ _ Hl).
Qed.

Lemma read_dict_mono h h' v d :
  h `prefix_of` h' -> read_dict h v = Some d -> read_dict h' v = Some d.
Proof.
  intros [ext ->]. destruct v as [s | l]; [done|]. cbn.
  destruct (h !! l) as [o|] eqn:Hl; [|done].
  by rewrite (lookup_app_l_Some _ _ _ _ Hl).
Qed.

Lemma read_messages_mono h h' store msgs :
  h `prefix_of` h' -> read_messages h store = Some msgs ->
  read_messages h' store = Some msgs.
Proof.
  intros Hpre. unfold read_messages.
  destruct (h !! store) as [o|] eqn:Hl; [|done].
  destruct Hpre as [ext ->]. rewrite (lookup_app_l_Some _ _ _ _ Hl).
  destruct o as [| |refs]; try done.
  rewrite !mapM_Some. intros Hall. eapply Forall2_impl; [exact Hall|].
  intros v msg. apply read_message_mono. by exists ext.
Qed.

Lemma read_new_dict h l msg :
  h !! l = Some (new_dict msg) -> read_dict h (VRef l) = Some (message_dict msg).
Proof. intros Hl. cbn. by rewrite Hl. Qed.

(** The comprehension reads the messages and touches nothing that exists:
    it extends the store with dictionaries that hold strings only. *)
Lemma build_dicts_spec h0 refs msgs :
  Forall2 (fun v msg => read_message h0 v = Some msg) refs msgs ->
  forall h, h0 `prefix_of` h ->
  exists ds h1,
    build_dicts refs h = Some (ds, h1)
    /\ h `prefix_of` h1
    /\ Forall2 (fun d msg => read_dict h1 d = Some (message_dict msg)) ds msgs
    /\ Forall (fun d => exists l, d = VRef l /\ length h <= l) ds
    /\ (forall l o, length h <= l -> h1 !! l = Some o -> refs_of o = []).
Proof.
  induction 1 as [|v msg refs msgs Hv _ IH]; intros h Hpre.
  - exists [], h. repeat split; try done.
    intros l o Hl Hlook. apply lookup_lt_Some in Hlook. lia.
  - cbn [build_dicts]. rewrite (read_message_mono _ _ _ _ Hpre Hv).
    cbn [alloc].
    destruct (IH (h ++ [new_dict msg])) as (ds & h1 & Hb & Hpre1 & Hds & Hfresh & Hobj).
    { etrans; [exact Hpre|]. by apply prefix_app_r. }
    rewrite Hb. exists (VRef (length h) :: ds), h1.
    assert (h1 !! length h = Some (new_dict msg)) as Hnew.
    { destruct Hpre1 as [ext ->]. apply lookup_app_l_Some.
      rewrite lookup_app_r by lia. by rewrite Nat.sub_diag. }
    split; [done|]. split.
    { etrans; [|exact Hpre1]. by apply prefix_app_r. }
    split; [constructor; [by apply read_new_dict | done]|]. split.
    + constructor; [by eexists|].
      eapply Forall_impl; [exact Hfresh|]. cbn.
      intros d (l & -> & Hl). exists l. rewrite length_app in Hl. cbn in Hl.
      split; [done | lia].
    + intros l o Hl Hlook. destruct (decide (l = length h)) as [-> | Hne].
      * rewrite Hnew in Hlook. by injection Hlook as <-.
      * apply (Hobj l o); [|done]. rewrite length_app. cbn. lia.
Qed.

Lemma closed_above_write base h l o :
  closed_above base h ->
  Forall (fun l' => base <= l') (refs_of o) ->
  closed_above base (<[l := o]> h).
Proof.
  intros Hc Ho l' o' Hl' Hlook.
  apply list_lookup_insert_Some in Hlook as [(-> & -> & _) | (_ & Hlook)]; [done|].
  by apply (Hc l' o').
Qed.

Lemma closed_above_alloc base h o :
  closed_above base h ->
  Forall (fun l' => base <= l') (refs_of o) ->
  closed_above base (h ++ [o]).
Proof.
  intros Hc Ho l' o' Hl' Hlook.
  apply lookup_app_Some in Hlook as [Hlook | (_ & Hlook)]; [by apply (Hc l' o')|].
  apply list_lookup_singleton_Some in Hlook as [_ <-]. done.
Qed.

Lemma forallb_le base (ls : list loc) :
  forallb (fun l' => base <=? l') ls = true -> Forall (fun l' => base <= l') ls.
Proof.
  rewrite forallb_forall, Forall_forall. intros H l Hl.
  apply Nat.leb_le, H. by apply list_elem_of_In.
Qed.

(** What the caller is allowed to do stays above [base]: the store below is
    the same, and nothing the caller holds comes to refer below. *)
Lemma mutate_allowed (h0 : heap) (mus : list mutation) :
  Forall (fun mu => allowed (length h0) mu = true) mus ->
  forall h, h0 `prefix_of` h -> closed_above (length h0) h ->
  h0 `prefix_of` mutate mus h /\ closed_above (length h0) (mutate mus h).
Proof.
  induction 1 as [|mu mus Hmu _ IH]; intros h Hpre Hc; [done|].
  cbn [mutate foldl]. apply IH.
  - destruct Hpre as [ext ->]. destruct mu as [l o | o]; cbn in *.
    + apply andb_true_iff in Hmu as [Hl _]. apply Nat.leb_le in Hl.
      exists (<[l - length h0 := o]> ext). by rewrite insert_app_r_alt.
    + exists (ext ++ [o]). by rewrite app_assoc.
  - destruct mu as [l o | o]; cbn in *.
    + apply andb_true_iff in Hmu as [_ Ho].
      apply closed_above_write; [done | by apply forallb_le].
    + apply closed_above_alloc; [done | by apply forallb_le].
Qed.

Lemma elements_of_messages h store msgs :
  read_messages h store = Some msgs ->
  exists refs,
    h !! store = Some (OList refs)
    /\ Forall2 (fun v msg => read_message h v = Some msg) refs msgs.
Proof.
  unfold read_messages. destruct (h !! store) as [[| |refs]|]; try done.
  intros Hm. exists refs. split; [done|]. by apply mapM_Some.
Qed.

(** [get_chat_history] on a store that holds the messages [msgs]. *)
Lemma heap_get_chat_history_spec h store msgs :
  read_messages h store = Some msgs ->
  exists res h1,
    Heap.get_chat_history store h = Some (res, h1)
    /\ h `prefix_of` h1
    /\ read_history h1 res = Some (map message_dict msgs)
    /\ length h <= res
    /\ closed_above (length h) h1.
Proof.
  intros Hm. destruct (elements_of_messages _ _ _ Hm) as (refs & Hstore & Hrefs).
  destruct (build_dicts_spec h refs msgs Hrefs h) as (ds & h1 & Hb & Hpre & Hds & Hfresh & Hobj);
    [done|].
  unfold Heap.get_chat_history. rewrite Hstore, Hb. cbn [alloc].
  exists (length h1), (h1 ++ [OList ds]).
  split; [done|]. split; [etrans; [exact Hpre|]; by apply prefix_app_r|].
  split; [|split].
  - unfold read_history. rewrite lookup_app_r by lia. rewrite Nat.sub_diag. cbn.
    apply mapM_Some. apply Forall2_fmap_r.
    eapply Forall2_impl; [exact Hds|]. cbn. intros d msg.
    apply read_dict_mono. by apply prefix_app_r.
  - by apply prefix_length.
  - apply closed_above_alloc.
    + intros l o Hl Hlook. by rewrite (Hobj l o Hl Hlook).
    + cbn. clear -Hfresh. induction Hfresh as [|d ds (l & -> & Hl) _ IH]; [done|].
      cbn. by constructor.
Qed.

End Sharing.

(** C8.  [get_chat_history] gives all the turns of the history, in the
    order in which they were appended, each as its pair of role and
    content.  In a store of objects that holds the history's messages, the
    list it returns and the dictionaries in it are new objects that hold
    strings only: the list lies above everything that existed, and nothing
    reachable from it refers below.  Whatever the caller then does to the
    objects it holds, the history read from the buffer is the same, and so
    is what [get_chat_history] gives the next time. *)
Theorem get_chat_history_is_a_copy {VectorStoreIndex : Type}
    (self : @RagChatbot VectorStoreIndex) (h : Heap.heap) (store : Heap.loc) :
  Heap.read_messages h store = Some (history self) ->
  get_chat_history self = map message_dict (history self)
  /\ exists res h1,
      Heap.get_chat_history store h = Some (res, h1)
      /\ Heap.read_history h1 res = Some (get_chat_history self)
      /\ length h <= res
      /\ Heap.closed_above (length h) h1
      /\ forall mus,
          Forall (fun mu => Heap.allowed (length h) mu = true) mus ->
          Heap.read_messages (Heap.mutate mus h1) store = Some (history self)
          /\ exists res' h3,
              Heap.get_chat_history store (Heap.mutate mus h1) = Some (res', h3)
              /\ Heap.read_history h3 res' = Some (get_chat_history self).
Proof.
  intros Hm. split; [reflexivity|].
  destruct (heap_get_chat_history_spec _ _ _ Hm) as (res & h1 & Hg & Hpre & Hread & Hres & Hc).
  exists res, h1. repeat (split; [done|]).
  intros mus Hmus.
  destruct (mutate_allowed h mus Hmus h1 Hpre Hc) as [Hpre2 _].
  pose proof (read_messages_mono _ _ _ _ Hpre2 Hm) as Hm2.
  split; [done|].
  destruct (heap_get_chat_history_spec _ _ _ Hm2) as (res' & h3 & Hg' & _ & Hread' & _).
  by exists res', h3.
Qed.

(** * Concrete runs *)



(** A first turn with the language model down: the error comes out and the
    chatbot is the one that went in. *)
Lemma chat_failure_keeps_history_witness :
  turn_fails Demo.query Demo.complete_down Demo.str Demo.bot "hola" 0
    (ExternalError "connection refused") 2
  /\ chat Demo.query Demo.complete_down Demo.str Demo.str "hola" (Demo.bot, 0)
     = (Raise (ExternalError "connection refused"), (Demo.bot, 2)).
Proof.
  assert (turn_fails Demo.query Demo.complete_down Demo.str Demo.bot "hola" 0
            (ExternalError "connection refused") 2) as Hfail.
  { right. exists "The sky is blue.", 1, "connection refused".
    split; [reflexivity|]. split; reflexivity. }
  split; [exact Hfail|].
  exact (proj1 (chat_failure_keeps_history Demo.query Demo.complete_down
                  Demo.str Demo.str Demo.bot "hola" 0 _ 2 Hfail)).
Defined.

(** The three cases of the corpus directory. *)
Lemma load_documents_directory_checks_witness :
  fst (load_documents Demo.load_data (Demo.machine ∅))
  = Raise (FileNotFoundError "El directorio data no existe")
  /\ fst (load_documents Demo.load_data (Demo.machine Demo.empty_corpus_disk))
     = Raise (ValueError "El directorio data está vacío. Por favor, añade documentos.")
  /\ fst (load_documents Demo.load_data (Demo.machine Demo.corpus_disk))
     = Ok ["The sky is blue."].
Proof.
  split; [|split].
  - pose proof (load_documents_directory_checks Demo.load_data (Demo.machine ∅)) as H.
    cbn zeta in H. destruct H as (H & _ & _).
    rewrite H; reflexivity.
  - pose proof (load_documents_directory_checks Demo.load_data
                  (Demo.machine Demo.empty_corpus_disk)) as H.
    cbn zeta in H. destruct H as (_ & H & _).
    rewrite H; reflexivity.
  - pose proof (load_documents_directory_checks Demo.load_data
                  (Demo.machine Demo.corpus_disk)) as H.
    cbn zeta in H. destruct H as (_ & _ & H).
    destruct H as (H & _); [reflexivity | vm_compute; discriminate |].
    rewrite H. reflexivity.
Defined.

(** Building and persisting from a missing corpus directory. *)
Lemma create_index_unusable_corpus_witness :
  corpus_unusable ["data"] ∅ (FileNotFoundError "El directorio data no existe")
  /\ create_and_save Demo.load_data Demo.from_documents Demo.persist ["storage"]
       (Demo.machine ∅)
     = (Raise (FileNotFoundError "El directorio data no existe"), Demo.machine ∅).
Proof.
  assert (corpus_unusable ["data"] ∅ (FileNotFoundError "El directorio data no existe"))
    as Hbad.
  { left. split; reflexivity. }
  split; [exact Hbad|].
  exact (proj1 (proj2 (create_index_unusable_corpus Demo.load_data Demo.from_documents
                         Demo.persist Demo.retriever_objects Demo.chatbot_objects
                         Demo.count_tokens (Demo.machine ∅) ["storage"] _ Hbad))).
Defined.

(** Loading an index that was never persisted. *)
Lemma load_index_missing_or_whole_witness :
  load_index Demo.load_index_from_storage ["storage"] (Demo.machine Demo.corpus_disk)
  = (Raise (FileNotFoundError "No se encontró ningún índice en storage"),
     Demo.machine Demo.corpus_disk).
Proof.
  exact (proj1 (proj1 (load_index_missing_or_whole Demo.load_index_from_storage
                         Demo.retriever_objects Demo.chatbot_objects Demo.count_tokens
                         (Demo.machine Demo.corpus_disk) ["storage"]) eq_refl)).
Defined.

(** The debug view of the two demo chunks. *)
Lemma retrieval_context_previews_witness :
  exists info,
    get_retrieval_context Demo.retrieve Demo.the_retriever "sky" 0 = (Ok info, 1)
    /\ num_nodes_retrieved info = 2
    /\ Forall2 summarises Demo.nodes (nodes_summary info).
Proof.
  exact (retrieval_context_previews Demo.retrieve Demo.the_retriever "sky" 0
           {| vir_index := Demo.the_index; similarity_top_k := 3 |}
           Demo.nodes 1 eq_refl eq_refl).
Defined.

(** C7, as the claim has it, fails on a chunk of 101 characters: the
    preview the debug view gives is not the first 100 characters of the
    chunk, it is those followed by three dots. *)
Lemma preview_is_not_the_first_100_characters :
  exists info,
    get_retrieval_context Demo.retrieve Demo.the_retriever "sky" 0 = (Ok info, 1)
    /\ String.length Demo.long_text = 101
    /\ (text_preview <$> nodes_summary info) !! 0
       = Some (slice_to 100 Demo.long_text +:+ "...")
    /\ (text_preview <$> nodes_summary info) !! 0
       <> Some (slice_to 100 Demo.long_text).
Proof.
  eexists. split; [reflexivity|]. split; [reflexivity|]. split; [reflexivity|].
  vm_compute. intros [= H].
Qed.

(** A chunk of 103 characters that ends in three dots is its own preview. *)
Example preview_can_be_the_whole_chunk :
  let chunk := mkNode (Score := Q) (Some None) (Demo.repeat_string 100 "a" +:+ "...") in
  String.length (text chunk) = 103 /\ node_text_preview chunk = text chunk.
Proof. split; reflexivity. Qed.

(** What the caller does to the list it got, and to a dictionary in it,
    does not reach the two turns of the history. *)
Lemma get_chat_history_is_a_copy_witness :
  Heap.read_messages Demo.two_turns 2 = Some (history Demo.bot_after_turn)
  /\ exists res h1,
      Heap.get_chat_history 2 Demo.two_turns = Some (res, h1)
      /\ Heap.read_messages
           (Heap.mutate
              [Heap.list_clear 5;
               Heap.Write 3 (Heap.ODict [("role", Heap.VStr "system")])] h1) 2
         = Some (history Demo.bot_after_turn).
Proof.
  split; [reflexivity|].
  destruct (get_chat_history_is_a_copy Demo.bot_after_turn Demo.two_turns 2 eq_refl)
    as (_ & res & h1 & Hg & _ & _ & _ & Hmut).
  exists res, h1. split; [exact Hg|].
  apply (Hmut [Heap.list_clear 5;
               Heap.Write 3 (Heap.ODict [("role", Heap.VStr "system")])]).
  constructor; [reflexivity|]. constructor; [reflexivity|]. constructor.
Defined.

(** Saving without an index, and saving the demo index into a directory
    that has to be made together with its parent. *)
Lemma save_index_needs_index_and_persists_witness :
  save_index Demo.persist ["storage"; "v1"] (Demo.machine Demo.corpus_disk)
  = (Raise (ValueError "No hay un índice para guardar. Ejecuta create_index primero."),
     Demo.machine Demo.corpus_disk)
  /\ clear_way ["storage"; "v1"] Demo.corpus_disk
  /\ exists fs1,
      mkdir_parents ["storage"; "v1"] Demo.corpus_disk = (Ok tt, fs1)
      /\ is_dir ["storage"; "v1"] fs1 = true
      /\ save_index Demo.persist ["storage"; "v1"]
           (Demo.machine_with_index Demo.corpus_disk)
         = (of_outcome (fst (Demo.persist Demo.the_index ["storage"; "v1"] fs1)),
            with_disk (snd (Demo.persist Demo.the_index ["storage"; "v1"] fs1))
              (Demo.machine_with_index Demo.corpus_disk)).
Proof.
  assert (clear_way ["storage"; "v1"] Demo.corpus_disk) as Hway.
  { intros q data Hq. destruct q as [|x q]; [discriminate|].
    apply prefix_cons_inv_1 in Hq as Hx. subst x.
    apply prefix_cons_inv_2 in Hq.
    destruct q as [|y q]; [vm_compute; discriminate|].
    apply prefix_cons_inv_1 in Hq as Hy. subst y.
    apply prefix_cons_inv_2, prefix_nil_inv in Hq. subst q.
    vm_compute. discriminate. }
  split; [|split; [exact Hway|]].
  - exact (proj1 (save_index_needs_index_and_persists Demo.persist
                    (Demo.machine Demo.corpus_disk) ["storage"; "v1"]) eq_refl).
  - destruct (proj2 (save_index_needs_index_and_persists Demo.persist
                       (Demo.machine_with_index Demo.corpus_disk) ["storage"; "v1"])
                Demo.the_index eq_refl Hway)
      as (fs1 & Hm & Hd & _ & _ & Hs).
    exists fs1. split; [exact Hm|]. split; [exact Hd | exact Hs].
Defined.

(** An item assignment on the first dictionary of the returned list and an
    [append] to that list are writes the caller is allowed: they stay above
    the three objects of the history. *)
Example caller_writes_stay_above :
  exists res h1 m1 m2,
    Heap.get_chat_history 2 Demo.two_turns = Some (res, h1)
    /\ Heap.dict_set 3 "role" (Heap.VStr "system") h1 = Some m1
    /\ Heap.list_append res (Heap.VStr "x") h1 = Some m2
    /\ Heap.allowed 3 m1 = true
    /\ Heap.allowed 3 m2 = true.
Proof. do 4 eexists. repeat split; reflexivity. Qed.

(** * Further properties of the code *)

(** ** Formatting the history and the frame of a turn *)

Lemma string_app_assoc (s t u : string) : (s +:+ t) +:+ u = s +:+ (t +:+ u).
Proof.
  induction s as [|c s IH]; [done|].
  change (String c ((s +:+ t) +:+ u) = String c (s +:+ (t +:+ u))). by rewrite IH.
Qed.

(** [sep.join] on a sequence with one more part. *)
Lemma join_snoc (sep : string) (parts : list string) (p : string) :
  join sep (parts ++ [p])
  = match parts with
    | [] => p
    | _ => join sep parts +:+ sep +:+ p
    end.
Proof.
  induction parts as [|q parts IH]; [done|].
  destruct parts as [|q' parts]; [done|].
  change (q +:+ sep +:+ join sep ((q' :: parts) ++ [p])
          = (q +:+ sep +:+ join sep (q' :: parts)) +:+ sep +:+ p).
  rewrite IH. by rewrite !string_app_assoc.
Qed.

Section ChatFurther.
Context {World VectorStoreIndex Response Completion : Type}.
Variable query :
  @RetrieverQueryEngine VectorStoreIndex -> string -> World -> outcome Response * World.
Variable complete : OpenAI -> string -> World -> outcome Completion * World.
Variable Response_str : Response -> string.
Variable Completion_str : Completion -> string.

Local Abbreviation RagChatbot := (@RagChatbot VectorStoreIndex).
Local Abbreviation run_chat := (chat query complete Response_str Completion_str).

(** The history block of a chatbot whose history is that of another
    followed by two turns. *)
Lemma format_history_two_more (self self' : RagChatbot) (m1 m2 : ChatMessage) :
  history self' = history self ++ [m1; m2] ->
  _format_chat_history self'
  = match history self with
    | [] => format_message m1 +:+ newline +:+ format_message m2
    | _ => _format_chat_history self +:+ newline
           +:+ format_message m1 +:+ newline +:+ format_message m2
    end.
Proof.
  intros Hh. unfold _format_chat_history.
  fold (history self'). fold (history self). rewrite Hh.
  destruct (history self) as [|m0 h]; [reflexivity|].
  replace ((m0 :: h) ++ [m1; m2]) with (((m0 :: h) ++ [m1]) ++ [m2])
    by (by rewrite <- app_assoc).
  rewrite map_app. cbn [map]. rewrite join_snoc.
  destruct (map format_message ((m0 :: h) ++ [m1])) as [|p ps] eqn:Hp; [done|].
  rewrite <- Hp. rewrite map_app. cbn [map]. rewrite join_snoc.
  cbn [map]. by rewrite !string_app_assoc.
Qed.

(** The history block of the next prompt, after a completed turn that fits
    the budget: the block of before (nothing, when there was no turn) and
    then the two new lines, the question under [Usuario] and the answer
    under [Asistente]. *)
Theorem next_prompt_carries_the_turn (self : RagChatbot) user_input w r w1 c w2 :
  retrieval query self user_input w = (Ok r, w1) ->
  complete (llm self) (prompt_of Response_str self user_input r) w1 = (Returned c, w2) ->
  tokens_of self (history self ++ exchange user_input (Completion_str c))
    <= token_limit (chat_history self) ->
  exists self',
    run_chat user_input (self, w) = (Ok (Completion_str c), (self', w2))
    /\ _format_chat_history self'
       = match history self with
         | [] => "Usuario: " +:+ user_input +:+ newline
                 +:+ "Asistente: " +:+ Completion_str c
         | _ => _format_chat_history self +:+ newline
                +:+ "Usuario: " +:+ user_input +:+ newline
                +:+ "Asistente: " +:+ Completion_str c
         end.
Proof.
  intros Hr Hc Hfit. exists (after_turn self user_input (Completion_str c)).
  split; [by apply (chat_returns _ _ _ _ _ _ _ r w1)|].
  rewrite (format_history_two_more self _ (mkMessage "user" user_input)
             (mkMessage "assistant" (Completion_str c)) (after_turn_fits _ _ _ Hfit)).
  change (format_message (mkMessage "user" user_input))
    with ("Usuario: " +:+ user_input).
  change (format_message (mkMessage "assistant" (Completion_str c)))
    with ("Asistente: " +:+ Completion_str c).
  destruct (history self); by rewrite ?string_app_assoc.
Qed.

(** Whatever its outcome, [chat] leaves the retriever, the system prompt,
    the language model handle, the token limit and the tokenizer of the
    chatbot as they were.  When it raises, the chatbot is the one that went
    in; when it returns, the history is the one of before followed by the
    question and the answer, less what the budget evicts, which are oldest
    turns. *)
Theorem chat_frame (self : RagChatbot) (user_input : string) (w : World) :
  let self' := fst (snd (run_chat user_input (self, w))) in
  bot_retriever self' = bot_retriever self
  /\ system_prompt self' = system_prompt self
  /\ llm self' = llm self
  /\ token_limit (chat_history self') = token_limit (chat_history self)
  /\ tokenizer_fn (chat_history self') = tokenizer_fn (chat_history self)
  /\ match fst (run_chat user_input (self, w)) with
     | Raise _ => self' = self
     | Ok answer =>
         history self' `suffix_of` history self ++ exchange user_input answer
     end.
Proof.
  cbn zeta. rewrite chat_cases.
  destruct (retrieval query self user_input w) as [[r | e] w1]; [|done].
  destruct (complete (llm self) (prompt_of Response_str self user_input r) w1)
    as [[c | msg] w2]; [|done].
  cbn [fst snd]. repeat split.
  rewrite after_turn_history. apply evict_suffix.
Qed.

End ChatFurther.

(** ** The retriever, as constructed *)

Lemma node_text_preview_length {Score : Type} (node : NodeWithScore Score) :
  String.length (node_text_preview node)
  = if 100 <? String.length (text node) then 103 else String.length (text node).
Proof.
  unfold node_text_preview.
  destruct (100 <? String.length (text node)) eqn:Hlt; [|done].
  apply Nat.ltb_lt in Hlt. rewrite append_length, slice_to_length.
  change (String.length "...") with 3. lia.
Qed.

Section RetrieverFurther.
Context {World VectorStoreIndex Score Response : Type}.
Variable retrieve :
  @VectorIndexRetriever VectorStoreIndex -> string -> World
  -> outcome (list (NodeWithScore Score)) * World.
Variable query :
  @RetrieverQueryEngine VectorStoreIndex -> string -> World -> outcome Response * World.

(** A retriever made by the constructor is configured: its retriever
    searches the given index for the given number of results, its query
    engine runs on that retriever, and neither of its two methods raises the
    [ValueError] of a missing configuration; what they give is what the
    library gives, a failure of the library coming out as such. *)
Theorem constructed_retriever_is_configured
    (i : VectorStoreIndex) (k : nat) (query_text : string) (w : World) :
  let self := InformationRetriever_init i k in
  let r := {| vir_index := i; similarity_top_k := k |} in
  let qe := {| qe_retriever := r; response_synthesizer := CompactAndRefine |} in
  retriever self = Some r
  /\ query_engine self = Some qe
  /\ retrieve_information query self query_text w
     = (of_outcome (fst (query qe query_text w)), snd (query qe query_text w))
  /\ (forall msg,
        fst (retrieve_information query self query_text w) <> Raise (ValueError msg))
  /\ (forall msg,
        fst (get_retrieval_context retrieve self query_text w) <> Raise (ValueError msg))
  /\ (forall msg w',
        retrieve r query_text w = (Failed msg, w') ->
        get_retrieval_context retrieve self query_text w
        = (Raise (ExternalError msg), w')).
Proof.
  cbn zeta. split; [reflexivity|]. split; [reflexivity|].
  unfold retrieve_information, get_retrieval_context. cbn [InformationRetriever_init
    _setup_retriever retriever query_engine index top_k].
  split; [|split; [|split]].
  - by destruct (query _ query_text w).
  - intros msg. by destruct (query _ query_text w) as [[a | m] w'].
  - intros msg. by destruct (retrieve _ query_text w) as [[a | m] w'].
  - intros msg w' Hr. by rewrite Hr.
Qed.

(** Whatever the retriever, when the debug view returns, the count it
    reports is the number of summaries it gives, and no preview in it is
    longer than 103 characters. *)
Theorem retrieval_context_is_bounded
    (self : @InformationRetriever VectorStoreIndex) query_text w info w' :
  get_retrieval_context retrieve self query_text w = (Ok info, w') ->
  num_nodes_retrieved info = length (nodes_summary info)
  /\ Forall (fun s => String.length (text_preview s) <= 103) (nodes_summary info).
Proof.
  unfold get_retrieval_context. destruct (retriever self) as [r|]; [|done].
  destruct (retrieve r query_text w) as [[nodes | msg] w1]; [|done].
  intros [= <- <-]. cbn [num_nodes_retrieved nodes_summary]. split.
  - by rewrite length_map.
  - apply Forall_map, Forall_forall. intros node _. cbn [text_preview node_summary].
    rewrite node_text_preview_length.
    destruct (100 <? String.length (text node)) eqn:Hlt; [lia|].
    apply Nat.ltb_ge in Hlt. lia.
Qed.

(** A chunk of 101 or 102 characters has a preview longer than itself. *)
Theorem preview_can_exceed_the_chunk (node : NodeWithScore Score) :
  100 < String.length (text node) < 103 ->
  String.length (text node) < String.length (node_text_preview node).
Proof.
  intros [Hlo Hhi]. rewrite node_text_preview_length.
  apply Nat.ltb_lt in Hlo as Hlt. by rewrite Hlt.
Qed.

End RetrieverFurther.

(** ** Making the persist directory *)

(** When [mkdir(parents=True, exist_ok=True)] raises, it has made
    nothing. *)
Lemma mkdir_parents_rev_raises (rev_p : list string) (fs : FS) e fs' :
  mkdir_parents_rev rev_p fs = (Raise e, fs') -> fs' = fs.
Proof.
  revert fs e fs'. induction rev_p as [|x rp IH]; intros fs e fs';
    cbn [mkdir_parents_rev].
  - destruct (os_mkdir_spec (reverse []) fs) as [[e0 He] | (He & _)]; rewrite He.
    + destruct e0; try destruct (is_dir (reverse []) fs); by intros [= _ <-].
    + done.
  - destruct (os_mkdir_spec (reverse (x :: rp)) fs) as [[e0 He] | (He & _)];
      rewrite He; [|done].
    destruct e0; try (destruct (is_dir (reverse (x :: rp)) fs); by intros [= _ <-]).
    destruct (mkdir_parents_rev rp fs) as [[u | e1] fs1] eqn:Hrec.
    + (* the parents were made: the directory itself is then made *)
      intros Hleaf. exfalso.
      destruct (mkdir_parents_rev_spec _ _ _ _ Hrec) as [Hg Hd].
      specialize (Hd eq_refl). rewrite reverse_cons in *.
      assert (fs !! (reverse rp ++ [x]) = None) as Hnone.
      { revert He. unfold os_mkdir. rewrite lookup_node_snoc.
        by destruct (fs !! (reverse rp ++ [x])). }
      revert Hleaf. unfold mkdir_exist_ok, os_mkdir, is_dir.
      rewrite lookup_node_snoc, parent_snoc.
      apply is_dir_lookup in Hd. rewrite Hd.
      destruct (fs1 !! (reverse rp ++ [x])) as [n|] eqn:Hn; [|done].
      destruct Hg as [_ Hadd]. destruct (Hadd _ _ Hn) as [Hold | ->]; [congruence|].
      cbn. rewrite lookup_node_snoc, Hn. done.
    + intros [= _ <-]. by eapply IH.
Qed.

Lemma mkdir_parents_on_file (p : Path) (fs : FS) (data : string) :
  lookup_node p fs = Some (File data) ->
  mkdir_parents p fs = (Raise (FileExistsError (path_str p)), fs).
Proof.
  intros Hp. unfold mkdir_parents.
  assert (os_mkdir p fs = (Raise (FileExistsError (path_str p)), fs)) as Hm.
  { unfold os_mkdir. by rewrite Hp. }
  assert (is_dir p fs = false) as Hd by (unfold is_dir; by rewrite Hp).
  destruct (reverse p) as [|x rp] eqn:Hrev.
  - apply (f_equal reverse) in Hrev. rewrite reverse_involutive in Hrev. by subst p.
  - cbn [mkdir_parents_rev]. rewrite <- Hrev, reverse_involutive, Hm, Hd. reflexivity.
Qed.

(** ** Building, saving and loading an index *)

Section IndexerFurther.
Context {World VectorStoreIndex Document : Type}.
Variable load_data : Path -> FS -> outcome (list Document).
Variable from_documents : list Document -> World -> outcome VectorStoreIndex * World.
Variable persist : VectorStoreIndex -> Path -> FS -> outcome unit * FS.
Variable load_index_from_storage : Path -> FS -> outcome VectorStoreIndex.

Local Abbreviation Machine := (@Machine World VectorStoreIndex).

(** The machine after the providers moved to [w]. *)
Definition with_world (w : World) (m : Machine) : Machine :=
  {| indexer := indexer m; disk := disk m; world := w |}.

(** What [create_index] does, by the outcome of loading the documents and
    of building the index. *)
Lemma create_index_cases (m : Machine) :
  create_index load_data from_documents m
  = match fst (load_documents load_data m) with
    | Raise e => (Raise e, m)
    | Ok documents =>
        match from_documents documents (world m) with
        | (Returned i, w') => (Ok i, with_indexer (set_index i) (with_world w' m))
        | (Failed msg, w') => (Raise (ExternalError msg), with_world w' m)
        end
    end.
Proof.
  unfold create_index, bind, on_provider, modify, ret.
  pose proof (load_documents_reads load_data m) as Hs.
  destruct (load_documents load_data m) as [[documents | e] m']; cbn in Hs; subst m';
    cbn [fst]; [|done].
  by destruct (from_documents documents (world m)) as [[i | msg] w'].
Qed.

(** On a usable corpus whose documents the reader loads and the provider
    embeds, [create_index] returns the index built from those documents and
    stores that same index in the indexer; the disk is as it was. *)
Theorem create_index_builds_and_stores (m : Machine) documents i w' :
  lookup_node (data_dir (indexer m)) (disk m) = Some Dir ->
  entries (data_dir (indexer m)) (disk m) <> [] ->
  load_data (data_dir (indexer m)) (disk m) = Returned documents ->
  from_documents documents (world m) = (Returned i, w') ->
  exists m',
    create_index load_data from_documents m = (Ok i, m')
    /\ stored_index (indexer m') = Some i
    /\ data_dir (indexer m') = data_dir (indexer m)
    /\ disk m' = disk m
    /\ world m' = w'.
Proof.
  intros Hd He Hl Hf. rewrite create_index_cases.
  rewrite (load_documents_nonempty load_data m Hd He), Hl. cbn [fst of_outcome].
  rewrite Hf. eexists. split; [reflexivity|]. by repeat split.
Qed.

(** [create_index] never writes the disk, and changes the indexer only by
    storing the index it returns: when it raises, for whatever reason (the
    corpus, the reader or the embedding provider), the indexer holds the
    index it held before. *)
Theorem create_index_keeps_disk_and_old_index (m : Machine) :
  let r := fst (create_index load_data from_documents m) in
  let m' := snd (create_index load_data from_documents m) in
  disk m' = disk m
  /\ data_dir (indexer m') = data_dir (indexer m)
  /\ index_name (indexer m') = index_name (indexer m)
  /\ match r with
     | Ok i => stored_index (indexer m') = Some i
     | Raise _ => indexer m' = indexer m
     end.
Proof.
  cbn zeta. rewrite create_index_cases.
  destruct (fst (load_documents load_data m)) as [documents | e]; [|done].
  by destruct (from_documents documents (world m)) as [[i | msg] w'].
Qed.

(** A data directory that is a regular file passes the existence check and
    fails in [iterdir]: [load_documents] and [create_index] raise
    [NotADirectoryError], neither of the two errors they document, and
    change nothing. *)
Theorem load_documents_on_regular_file (m : Machine) (data : string) :
  lookup_node (data_dir (indexer m)) (disk m) = Some (File data) ->
  load_documents load_data m
  = (Raise (NotADirectoryError (path_str (data_dir (indexer m)))), m)
  /\ create_index load_data from_documents m
     = (Raise (NotADirectoryError (path_str (data_dir (indexer m)))), m).
Proof.
  intros Hd.
  assert (load_documents load_data m
          = (Raise (NotADirectoryError (path_str (data_dir (indexer m)))), m)) as Hl.
  { unfold load_documents, bind, gets, read_disk, path_exists, raise, iterdir.
    cbn. rewrite Hd. cbn. by rewrite Hd. }
  split; [exact Hl|]. rewrite create_index_cases. by rewrite Hl.
Qed.

(** With an index to save, [save_index] that raises while making the
    directory has written nothing and has not called the storage backend;
    a regular file at the persist path makes it raise [FileExistsError]. *)
Theorem save_index_directory_failure (m : Machine) (persist_dir : Path) i :
  stored_index (indexer m) = Some i ->
  (forall e fs',
     mkdir_parents persist_dir (disk m) = (Raise e, fs') ->
     save_index persist persist_dir m = (Raise e, m))
  /\ (forall data,
        lookup_node persist_dir (disk m) = Some (File data) ->
        save_index persist persist_dir m
        = (Raise (FileExistsError (path_str persist_dir)), m)).
Proof.
  intros Hi.
  assert (forall e fs',
            mkdir_parents persist_dir (disk m) = (Raise e, fs') ->
            save_index persist persist_dir m = (Raise e, m)) as Hfail.
  { intros e fs' Hm.
    pose proof (mkdir_parents_rev_raises _ _ _ _ Hm) as ->.
    unfold save_index, bind, gets, on_disk. cbn. rewrite Hi. cbn. rewrite Hm.
    by rewrite machine_eta. }
  split; [exact Hfail|].
  intros data Hp. by apply (Hfail _ (disk m)), (mkdir_parents_on_file _ _ data).
Qed.

End IndexerFurther.

(** ** The command-line front end ([app.py]) *)

(** [Path.mkdir(parents=True)]: as with [exist_ok=True] for the parents,
    but an error of [os.mkdir] on the directory itself is raised. *)
Definition mkdir_parents_strict (p : Path) : Py FS unit :=
  fun fs =>
    match os_mkdir p fs with
    | (Ok u, fs') => (Ok u, fs')
    | (Raise (FileNotFoundError m), fs') =>
        match reverse p with
        | [] => (Raise (FileNotFoundError m), fs')
        | _ :: rev_parent =>
            match mkdir_parents_rev rev_parent fs' with
            | (Ok _, fs'') => os_mkdir p fs''
            | (Raise e, fs'') => (Raise e, fs'')
            end
        end
    | (Raise e, fs') => (Raise e, fs')
    end.

(** What the console gives to [input()]: a line, or an interrupt. *)
Inductive console_event : Type :=
| Line (user_input : string)
| CtrlC.

(** What the chat loop shows for an event: the answer to a question, the
    error of a failed turn, or the farewell. *)
Inductive shown : Type :=
| Answer (user_input response : string)
| ErrorShown (user_input : string) (e : exn)
| Farewell.

(** [c.lower()] on the letters [A] to [Z]; another character of the model
    has no lower case among the letters [a] to [z]. *)
Definition lower_char (c : Ascii.ascii) : Ascii.ascii :=
  let n := Ascii.nat_of_ascii c in
  if (65 <=? n) && (n <=? 90) then Ascii.ascii_of_nat (n + 32) else c.

Fixpoint lower (s : string) : string :=
  match s with
  | EmptyString => EmptyString
  | String c s' => String (lower_char c) (lower s')
  end.

(** [user_input.lower() in ["salir", "exit", "quit", "q"]] *)
Definition is_exit_command (user_input : string) : bool :=
  bool_decide (lower user_input ∈ ["salir"; "exit"; "quit"; "q"]).

Section CommandLine.
Context {World VectorStoreIndex Document Response Completion : Type}.
Variable load_data : Path -> FS -> outcome (list Document).
Variable from_documents : list Document -> World -> outcome VectorStoreIndex * World.
Variable persist : VectorStoreIndex -> Path -> FS -> outcome unit * FS.
Variable load_index_from_storage : Path -> FS -> outcome VectorStoreIndex.
Variable retriever_objects : VectorStoreIndex -> nat -> World -> outcome unit.
Variable chatbot_objects : World -> outcome unit.
Variable default_tokenizer : ChatMessage -> nat.
Variable query :
  @RetrieverQueryEngine VectorStoreIndex -> string -> World -> outcome Response * World.
Variable complete : OpenAI -> string -> World -> outcome Completion * World.
Variable Response_str : Response -> string.
Variable Completion_str : Completion -> string.

Local Abbreviation Machine := (@Machine World VectorStoreIndex).
Local Abbreviation RagChatbot := (@RagChatbot VectorStoreIndex).

(** [main] up to the chat loop, for a data directory and a persist
    directory ([main] has ["./data"] and ["./storage"]): the chatbot the
    loop will run, or [None] when [main] returns before the loop.  An
    exception raised outside the [try] leaves [main].  ([main] is run once
    the check of the API key at the top of the file has passed.) *)
Definition main_before_loop (data_dir persist_dir : Path)
  : Py Machine (option RagChatbot) :=
  let! found := read_disk (fun fs => Ok (path_exists data_dir fs)) in
  if negb found then
    on_disk (mkdir_parents_strict data_dir) ;;;
    ret None
  else
    let! listing := read_disk (iterdir data_dir) in
    if negb (any listing) then ret None
    else
      main_setup load_data from_documents persist load_index_from_storage
        retriever_objects chatbot_objects default_tokenizer data_dir persist_dir.

(** The chat loop of [main] on the events of the console, until the user
    leaves or the events at hand are used up: what was shown, whether the
    loop has ended, and the session. *)
Fixpoint chat_loop (events : list console_event) (s : RagChatbot * World)
  : list shown * bool * (RagChatbot * World) :=
  match events with
  | [] => ([], false, s)
  | CtrlC :: _ => ([Farewell], true, s)
  | Line user_input :: rest =>
      if is_exit_command user_input then ([Farewell], true, s)
      else
        match chat query complete Response_str Completion_str user_input s with
        | (Ok response, s') =>
            let '(log, ended, s'') := chat_loop rest s' in
            (Answer user_input response :: log, ended, s'')
        | (Raise e, s') =>
            let '(log, ended, s'') := chat_loop rest s' in
            (ErrorShown user_input e :: log, ended, s'')
        end
  end.

(** The turns an entry of the log stands for in the history. *)
Definition turns_of (entry : shown) : list ChatMessage :=
  match entry with
  | Answer user_input response =>
      [mkMessage "user" user_input; mkMessage "assistant" response]
  | ErrorShown _ _ => []
  | Farewell => []
  end.

Definition is_answer (entry : shown) : bool :=
  match entry with Answer _ _ => true | _ => false end.

End CommandLine.

Section CommandLineProperties.
Context {World VectorStoreIndex Document Response Completion : Type}.
Variable load_data : Path -> FS -> outcome (list Document).
Variable from_documents : list Document -> World -> outcome VectorStoreIndex * World.
Variable persist : VectorStoreIndex -> Path -> FS -> outcome unit * FS.
Variable load_index_from_storage : Path -> FS -> outcome VectorStoreIndex.
Variable retriever_objects : VectorStoreIndex -> nat -> World -> outcome unit.
Variable chatbot_objects : World -> outcome unit.
Variable default_tokenizer : ChatMessage -> nat.
Variable query :
  @RetrieverQueryEngine VectorStoreIndex -> string -> World -> outcome Response * World.
Variable complete : OpenAI -> string -> World -> outcome Completion * World.
Variable Response_str : Response -> string.
Variable Completion_str : Completion -> string.

Local Abbreviation Machine := (@Machine World VectorStoreIndex).
Local Abbreviation RagChatbot := (@RagChatbot VectorStoreIndex).
Local Abbreviation run_main :=
  (main_before_loop load_data from_documents persist load_index_from_storage
     retriever_objects chatbot_objects default_tokenizer).
Local Abbreviation run_setup :=
  (main_setup load_data from_documents persist load_index_from_storage
     retriever_objects chatbot_objects default_tokenizer).
Local Abbreviation make_chatbot :=
  (new_chatbot (World := World) retriever_objects chatbot_objects default_tokenizer).

(** What the two constructors do on a machine: nothing to it, and a
    chatbot when the library builds its objects. *)
Lemma new_chatbot_cases (i : VectorStoreIndex) (m : Machine) :
  make_chatbot i m
  = (match retriever_objects i 3 (world m), chatbot_objects (world m) with
     | Returned _, Returned _ => Ok (chatbot_on default_tokenizer i)
     | Failed msg, _ => Raise (ExternalError msg)
     | Returned _, Failed msg => Raise (ExternalError msg)
     end, m).
Proof.
  unfold new_chatbot, bind, read_world, ret.
  destruct (retriever_objects i 3 (world m)) as [[] | msg]; cbn; [|done].
  by destruct (chatbot_objects (world m)) as [[] | msg].
Qed.

Lemma main_on_directory (m : Machine) (d persist_dir : Path) :
  lookup_node d (disk m) = Some Dir ->
  run_main d persist_dir m
  = match entries d (disk m) with
    | [] => (Ok None, m)
    | _ :: _ => run_setup d persist_dir m
    end.
Proof.
  intros Hd. unfold main_before_loop, bind, read_disk, path_exists, iterdir, ret.
  cbn. rewrite Hd. cbn. rewrite Hd. cbn.
  by destruct (entries d (disk m)).
Qed.



Lemma create_and_save_ok (m m' : Machine) (persist_dir : Path) i :
  create_and_save load_data from_documents persist persist_dir m = (Ok i, m') ->
  stored_index (indexer m') = Some i.
Proof.
  unfold create_and_save, bind. rewrite create_index_cases.
  destruct (fst (load_documents load_data m)) as [documents | e]; [|done].
  destruct (from_documents documents (world m)) as [[j | msg] w']; [|done].
  unfold save_index, bind, gets, on_disk, ret. cbn.
  destruct (mkdir_parents persist_dir (disk m)) as [[[] | e] fs1]; [|done]. cbn.
  destruct (persist j persist_dir fs1) as [[[] | msg] fs2]; [|done]. cbn.
  by intros [= <- <-].
Qed.

Lemma main_obtain_index_ok (m m' : Machine) (persist_dir : Path) i :
  main_obtain_index load_data from_documents persist load_index_from_storage
    persist_dir m = (Ok i, m') ->
  stored_index (indexer m') = Some i.
Proof.
  unfold main_obtain_index, bind, read_disk.
  destruct (path_exists persist_dir (disk m)).
  - rewrite load_index_cases.
    destruct (lookup_node persist_dir _); [|done].
    destruct (load_index_from_storage persist_dir _); [|done].
    by intros [= <- <-].
  - apply create_and_save_ok.
Qed.

(** [main] reaches the chat loop only over a data directory that exists
    and has entries, and then with a chatbot that retrieves the 3 best
    results from the index the indexer holds, and has no turn in its
    history. *)
Theorem main_chatbot_comes_from_a_corpus (m m' : Machine) (d persist_dir : Path) bot :
  run_main d persist_dir m = (Ok (Some bot), m') ->
  lookup_node d (disk m) = Some Dir
  /\ entries d (disk m) <> []
  /\ exists i,
      stored_index (indexer m') = Some i
      /\ bot = chatbot_on default_tokenizer i
      /\ index (bot_retriever bot) = i
      /\ top_k (bot_retriever bot) = 3
      /\ history bot = [].
Proof.
  destruct (lookup_node d (disk m)) as [[data | ]|] eqn:Hd.
  - unfold main_before_loop, bind, read_disk, path_exists, iterdir.
    cbn. rewrite Hd. cbn. by rewrite Hd.
  - rewrite (main_on_directory m d persist_dir Hd).
    destruct (entries d (disk m)) as [|q qs] eqn:He; [done|].
    intros Hs. split; [done|]. split; [done|].
    revert Hs. unfold main_setup. unfold bind at 1. rewrite new_indexer_run.
    destruct (main_obtain_index _ _ _ _ persist_dir (with_new_indexer d m))
      as [[i | e] m1] eqn:Ho; [|done].
    unfold bind, ret. rewrite new_chatbot_cases.
    destruct (retriever_objects i 3 (world m1)) as [[] | msg]; [|done].
    destruct (chatbot_objects (world m1)) as [[] | msg]; [|done].
    intros [= <- <-]. exists i. split; [|done].
    by apply (main_obtain_index_ok _ _ _ _ Ho).
  - unfold main_before_loop, bind, read_disk, path_exists, on_disk, ret.
    cbn. rewrite Hd. cbn.
    by destruct (mkdir_parents_strict d (disk m)) as [[[] | e] fs1].
Qed.

Lemma entries_nil (p : Path) (fs : FS) :
  entries p fs = [] <-> forall q n, fs !! q = Some n -> is_child p q = false.
Proof.
  unfold entries. split.
  - intros Hnil q n Hq. destruct (is_child p q) eqn:Hc; [|done].
    assert (q ∈ filter (fun q => is_child p q = true) (elements (dom fs))) as Hin.
    { apply list_elem_of_filter. split; [done|].
      apply elem_of_elements, elem_of_dom. by exists n. }
    rewrite Hnil in Hin. by apply not_elem_of_nil in Hin.
  - intros Hall.
    destruct (filter (fun q => is_child p q = true) (elements (dom fs)))
      as [|q l] eqn:Hf; [done|]. exfalso.
    assert (q ∈ filter (fun q => is_child p q = true) (elements (dom fs))) as Hin.
    { rewrite Hf. by left. }
    apply list_elem_of_filter in Hin as [Hc Hq].
    apply elem_of_elements, elem_of_dom in Hq as [n Hn].
    rewrite (Hall q n Hn) in Hc. done.
Qed.

(** On a disk without the data directory, [main] makes it and returns
    before any indexer work; run again, it finds the directory empty and
    returns once more, leaving everything as it is.  Neither run calls a
    provider.  (The parent of the data directory is there, as the working
    directory is for ["./data"], and nothing lies under the missing
    directory.) *)
Theorem main_on_a_new_checkout (m : Machine) (d persist_dir : Path) :
  lookup_node d (disk m) = None ->
  lookup_node (parent d) (disk m) = Some Dir ->
  entries d (disk m) = [] ->
  let m1 := with_disk (<[d := Dir]> (disk m)) m in
  run_main d persist_dir m = (Ok None, m1)
  /\ is_dir d (disk m1) = true
  /\ run_main d persist_dir m1 = (Ok None, m1).
Proof.
  intros Hd Hpar He. cbn zeta.
  assert (d <> []) as Hne by (intros ->; discriminate).
  assert (lookup_node d (<[d := Dir]> (disk m)) = Some Dir) as Hd1.
  { destruct d; [done|]. cbn. apply lookup_insert_eq. }
  split; [|split].
  - unfold main_before_loop, bind, read_disk, path_exists, on_disk, ret,
      mkdir_parents_strict, os_mkdir.
    cbn. rewrite Hd. cbn. rewrite Hd, Hpar. reflexivity.
  - by apply is_dir_lookup.
  - rewrite main_on_directory by exact Hd1. cbn [disk with_disk].
    assert (entries d (<[d := Dir]> (disk m)) = []) as ->; [|done].
    apply entries_nil. intros q n Hq.
    destruct (decide (d = q)) as [<- | Hdq].
    + unfold is_child. apply bool_decide_eq_false. intros [_ Hp].
      unfold parent in Hp. destruct (exists_last Hne) as (p0 & x & ->).
      rewrite removelast_last in Hp. apply (f_equal length) in Hp.
      rewrite length_app in Hp. cbn in Hp. lia.
    + rewrite lookup_insert_ne in Hq by done.
      by apply (proj1 (entries_nil d (disk m)) He q n).
Qed.

End CommandLineProperties.

(** ** The chat loop *)

Section ChatLoopProperties.
Context {World VectorStoreIndex Response Completion : Type}.
Variable query :
  @RetrieverQueryEngine VectorStoreIndex -> string -> World -> outcome Response * World.
Variable complete : OpenAI -> string -> World -> outcome Completion * World.
Variable Response_str : Response -> string.
Variable Completion_str : Completion -> string.

Local Abbreviation RagChatbot := (@RagChatbot VectorStoreIndex).
Local Abbreviation run_chat := (chat query complete Response_str Completion_str).
Local Abbreviation run_loop := (chat_loop query complete Response_str Completion_str).

(** The number of answers in a log. *)
Definition count_answers (log : list shown) : nat :=
  length (List.filter is_answer log).

(** An event that ends the loop: an interrupt, or a line that in lower
    case is one of the four words. *)
Definition ends_loop (ev : console_event) : Prop :=
  match ev with
  | CtrlC => True
  | Line user_input => is_exit_command user_input = true
  end.

(** An event that is a question to the chatbot. *)
Definition is_question (ev : console_event) : Prop :=
  match ev with
  | CtrlC => False
  | Line user_input => is_exit_command user_input = false
  end.

(** The entry shown for a question: its answer or its error. *)
Definition shown_for (ev : console_event) (entry : shown) : Prop :=
  match ev, entry with
  | Line user_input, Answer u _ => u = user_input
  | Line user_input, ErrorShown u _ => u = user_input
  | _, _ => False
  end.

Lemma chat_loop_step (user_input : string) (rest : list console_event)
    (s : RagChatbot * World) :
  is_exit_command user_input = false ->
  run_loop (Line user_input :: rest) s
  = let entry :=
      match fst (run_chat user_input s) with
      | Ok response => Answer user_input response
      | Raise e => ErrorShown user_input e
      end in
    let next := run_loop rest (snd (run_chat user_input s)) in
    (entry :: fst (fst next), snd (fst next), snd next).
Proof.
  intros Hx. cbn [chat_loop]. rewrite Hx.
  destruct (run_chat user_input s) as [[response | e] s1]; cbn [fst snd];
    by destruct (run_loop rest s1) as [[log ended] s2].
Qed.

(** One question: its entry in the log agrees with what it did to the
    history. *)
Lemma chat_turn_entry (user_input : string) (self : RagChatbot) (w : World) :
  let entry :=
    match fst (run_chat user_input (self, w)) with
    | Ok response => Answer user_input response
    | Raise e => ErrorShown user_input e
    end in
  let self' := fst (snd (run_chat user_input (self, w))) in
  tokens_of self (history self) <= token_limit (chat_history self) ->
  history self' = budget_window self (history self ++ turns_of entry)
  /\ bot_retriever self' = bot_retriever self
  /\ llm self' = llm self
  /\ token_limit (chat_history self') = token_limit (chat_history self)
  /\ tokenizer_fn (chat_history self') = tokenizer_fn (chat_history self).
Proof.
  cbn zeta. intros Hfit. rewrite chat_cases.
  assert (history self = budget_window self (history self ++ [])) as Hsame.
  { rewrite app_nil_r. symmetry. by apply evict_within. }
  destruct (retrieval query self user_input w) as [[r | e] w1]; [|done].
  destruct (complete (llm self) (prompt_of Response_str self user_input r) w1)
    as [[c | msg] w2]; [|done].
  cbn [fst snd turns_of]. by rewrite after_turn_history.
Qed.

(** On a chatbot whose history is within its budget, and however the loop
    goes, the history after it is the history before it followed, for each
    answer shown and in the order shown, by the question and that answer,
    less the oldest turns that the budget evicts; a turn that failed left
    nothing.  When all of it fits the budget, nothing is evicted and the
    history has grown by twice the number of answers.  The retriever, the
    language model handle, the token limit and the tokenizer are those of
    before. *)
Theorem chat_loop_history (events : list console_event) (s : RagChatbot * World) :
  tokens_of (fst s) (history (fst s)) <= token_limit (chat_history (fst s)) ->
  let log := fst (fst (run_loop events s)) in
  let self' := fst (snd (run_loop events s)) in
  history self' = budget_window (fst s) (history (fst s) ++ flat_map turns_of log)
  /\ (tokens_of (fst s) (history (fst s) ++ flat_map turns_of log)
        <= token_limit (chat_history (fst s)) ->
      history self' = history (fst s) ++ flat_map turns_of log
      /\ length (history self') = length (history (fst s)) + 2 * count_answers log)
  /\ bot_retriever self' = bot_retriever (fst s)
  /\ llm self' = llm (fst s)
  /\ token_limit (chat_history self') = token_limit (chat_history (fst s))
  /\ tokenizer_fn (chat_history self') = tokenizer_fn (chat_history (fst s)).
Proof.
  cbn zeta. intros Hfit.
  assert (forall log : list shown,
            length (flat_map turns_of log) = 2 * count_answers log) as Hcount.
  { induction log as [|entry log IHlog]; [done|].
    cbn [flat_map]. rewrite length_app, IHlog. unfold count_answers.
    destruct entry; cbn [List.filter is_answer turns_of length]; lia. }
  assert (history (run_loop events s).2.1
          = budget_window s.1 (history s.1 ++ flat_map turns_of (run_loop events s).1.1)
          /\ bot_retriever (run_loop events s).2.1 = bot_retriever s.1
          /\ llm (run_loop events s).2.1 = llm s.1
          /\ token_limit (chat_history (run_loop events s).2.1)
             = token_limit (chat_history s.1)
          /\ tokenizer_fn (chat_history (run_loop events s).2.1)
             = tokenizer_fn (chat_history s.1)) as (Hh & Hr & Hl & Ht & Hk).
  { revert s Hfit. induction events as [|ev rest IH]; intros s Hfit.
    - cbn. rewrite app_nil_r. split; [|done]. symmetry. by apply evict_within.
    - assert (history s.1 = budget_window s.1 (history s.1 ++ [])) as Hstay.
      { rewrite app_nil_r. symmetry. by apply evict_within. }
      destruct ev as [user_input|]; [|by cbn].
      destruct (is_exit_command user_input) eqn:Hx.
      { cbn [chat_loop]. rewrite Hx. by cbn. }
      rewrite (chat_loop_step user_input rest s Hx). cbn zeta. cbn [fst snd].
      destruct s as [self w]. cbn [fst] in *.
      destruct (chat_turn_entry user_input self w Hfit) as (Hh & Hr & Hl & Ht & Hk).
      destruct (run_chat user_input (self, w)) as [res [self1 w1]] eqn:Hc.
      cbn [fst snd] in *.
      destruct (IH (self1, w1)) as (IHh & IHr & IHl & IHt & IHk).
      { cbn [fst]. unfold tokens_of. rewrite Hh, Ht, Hk. apply evict_fits. }
      cbn [fst] in *.
      rewrite IHr, Hr, IHl, Hl, IHt, Ht, IHk, Hk. split; [|done].
      rewrite IHh. unfold budget_window. rewrite Ht, Hk, Hh.
      unfold budget_window. rewrite evict_app. by rewrite <- app_assoc. }
  split; [done|]. split; [|done].
  intros Hall. rewrite Hh. unfold budget_window.
  rewrite evict_within by exact Hall. split; [done|].
  by rewrite length_app, Hcount.
Qed.

(** The loop ends at the first interrupt or exit word; what the console
    holds after it is never read, and so never sent to the chatbot. *)
Theorem chat_loop_stops_when_told
    (pre rest : list console_event) (ev : console_event) (s : RagChatbot * World) :
  ends_loop ev ->
  run_loop (pre ++ ev :: rest) s = run_loop (pre ++ [ev]) s
  /\ snd (fst (run_loop (pre ++ ev :: rest) s)) = true.
Proof.
  intros Hev. revert s. induction pre as [|p pre IH]; intros s.
  - destruct ev as [user_input|]; cbn in *; [rewrite Hev|]; done.
  - destruct p as [user_input|]; [|done].
    destruct (is_exit_command user_input) eqn:Hx.
    { cbn [app chat_loop]. by rewrite Hx. }
    cbn [app]. rewrite !(chat_loop_step user_input _ s Hx). cbn zeta. cbn [fst snd].
    destruct (IH (snd (run_chat user_input s))) as [-> ->]. done.
Qed.

(** A turn that fails does not end the loop: as long as the events are
    questions, each of them gets its entry, an answer or an error, and the
    loop goes on. *)
Theorem chat_loop_survives_failures (events : list console_event) (s : RagChatbot * World) :
  Forall is_question events ->
  snd (fst (run_loop events s)) = false
  /\ Forall2 shown_for events (fst (fst (run_loop events s))).
Proof.
  intros Hq. revert s. induction Hq as [|ev rest Hev _ IH]; intros s; [done|].
  destruct ev as [user_input|]; [|done]. cbn in Hev.
  rewrite (chat_loop_step user_input rest s Hev). cbn zeta. cbn [fst snd].
  destruct (IH (snd (run_chat user_input s))) as [-> Hall]. split; [done|].
  constructor; [|done]. by destruct (fst (run_chat user_input s)).
Qed.

End ChatLoopProperties.

(** ** The page ([streamlit_app.py]) *)

Section Streamlit.
Context {World VectorStoreIndex Response Completion : Type}.
Variable query :
  @RetrieverQueryEngine VectorStoreIndex -> string -> World -> outcome Response * World.
Variable complete : OpenAI -> string -> World -> outcome Completion * World.
Variable Response_str : Response -> string.
Variable Completion_str : Completion -> string.

Local Abbreviation RagChatbot := (@RagChatbot VectorStoreIndex).
Local Abbreviation SessionState := (@SessionState VectorStoreIndex).

(** [st.session_state.messages.append({"role": r, "content": c})] *)
Definition append_message (r c : string) (st : SessionState) : SessionState :=
  {| messages := messages st ++ [(r, c)];
     chatbot := chatbot st;
     index_created := index_created st |}.

(** The chatbot object of the session state after a call changed it. *)
Definition with_chatbot (bot : RagChatbot) (st : SessionState) : SessionState :=
  {| messages := messages st;
     chatbot := Some bot;
     index_created := index_created st |}.

(** The block of the chat input, for the key typed in the side bar and the
    text typed in the input.  A call on a chatbot that is [None] raises
    inside the [try], like a failed turn. *)
Definition streamlit_chat_input (api_key prompt : string) (st : SessionState) (w : World)
  : SessionState * World :=
  if String.eqb prompt "" then (st, w)
  else if String.eqb api_key "" then (st, w)
  else if negb (index_created st) then (st, w)
  else
    let st1 := append_message "user" prompt st in
    match chatbot st1 with
    | None => (st1, w)
    | Some bot =>
        match chat query complete Response_str Completion_str prompt (bot, w) with
        | (Ok response, (bot', w')) =>
            (append_message "assistant" response (with_chatbot bot' st1), w')
        | (Raise _, (bot', w')) => (with_chatbot bot' st1, w')
        end
    end.

(** The button that clears the chat history. *)
Definition streamlit_clear_history (st : SessionState) : SessionState :=
  {| messages := [];
     chatbot := clear_history <$> chatbot st;
     index_created := index_created st |}.

(** The page shows what the chatbot remembers. *)
Definition in_step (st : SessionState) : Prop :=
  exists bot, chatbot st = Some bot /\ messages st = get_chat_history bot.

End Streamlit.

Section StreamlitProperties.
Context {World VectorStoreIndex Document Response Completion : Type}.
Variable load_data : Path -> FS -> outcome (list Document).
Variable from_documents : list Document -> World -> outcome VectorStoreIndex * World.
Variable persist : VectorStoreIndex -> Path -> FS -> outcome unit * FS.
Variable retriever_objects : VectorStoreIndex -> nat -> World -> outcome unit.
Variable chatbot_objects : World -> outcome unit.
Variable default_tokenizer : ChatMessage -> nat.
Variable query :
  @RetrieverQueryEngine VectorStoreIndex -> string -> World -> outcome Response * World.
Variable complete : OpenAI -> string -> World -> outcome Completion * World.
Variable Response_str : Response -> string.
Variable Completion_str : Completion -> string.

Local Abbreviation RagChatbot := (@RagChatbot VectorStoreIndex).
Local Abbreviation SessionState := (@SessionState VectorStoreIndex).
Local Abbreviation run_chat := (chat query complete Response_str Completion_str).
Local Abbreviation chat_input :=
  (streamlit_chat_input query complete Response_str Completion_str).

(** The page takes a question: there is a text, a key and an index. *)
Definition accepts (api_key prompt : string) (st : SessionState) : Prop :=
  prompt <> "" /\ api_key <> "" /\ index_created st = true.

Lemma chat_input_accepted (api_key prompt : string) (st : SessionState) (w : World) bot :
  accepts api_key prompt st ->
  chatbot st = Some bot ->
  chat_input api_key prompt st w
  = match run_chat prompt (bot, w) with
    | (Ok response, (bot', w')) =>
        (append_message "assistant" response
           (with_chatbot bot' (append_message "user" prompt st)), w')
    | (Raise _, (bot', w')) =>
        (with_chatbot bot' (append_message "user" prompt st), w')
    end.
Proof.
  intros (Hp & Hk & Hi) Hb. unfold streamlit_chat_input.
  apply String.eqb_neq in Hp, Hk. rewrite Hp, Hk, Hi.
  cbn [negb append_message chatbot]. by rewrite Hb.
Qed.

(** Without a text, a key or an index the chat input does nothing: nothing
    is shown, the chatbot is not called and no provider is. *)
Theorem chat_input_refused (api_key prompt : string) (st : SessionState) (w : World) :
  prompt = "" \/ api_key = "" \/ index_created st = false ->
  chat_input api_key prompt st w = (st, w).
Proof.
  unfold streamlit_chat_input. intros [-> | [-> | Hi]]; [done | |].
  - by destruct (String.eqb prompt "").
  - rewrite Hi. by destruct (String.eqb prompt ""), (String.eqb api_key "").
Qed.

(** A turn that succeeds shows the question and the answer after what was
    shown; when the history with the two new turns fits the budget of the
    chatbot, a page that showed what the chatbot remembered still does. *)
Theorem chat_input_success_keeps_in_step
    (api_key prompt : string) (st : SessionState) (w : World) bot response bot' w' :
  accepts api_key prompt st ->
  chatbot st = Some bot ->
  run_chat prompt (bot, w) = (Ok response, (bot', w')) ->
  let st' := fst (chat_input api_key prompt st w) in
  messages st' = messages st ++ [("user", prompt); ("assistant", response)]
  /\ chatbot st' = Some bot'
  /\ snd (chat_input api_key prompt st w) = w'
  /\ (tokens_of bot (history bot ++ exchange prompt response)
        <= token_limit (chat_history bot) ->
      in_step st -> in_step st').
Proof.
  intros Hacc Hb Hc. cbn zeta. rewrite (chat_input_accepted _ _ _ _ bot Hacc Hb), Hc.
  cbn [fst snd append_message with_chatbot messages chatbot].
  split; [by rewrite <- app_assoc|]. split; [done|]. split; [done|].
  intros Hfit (bot0 & Hb0 & Hm). rewrite Hb in Hb0. injection Hb0 as <-.
  exists bot'. split; [done|]. cbn [messages append_message with_chatbot].
  rewrite Hm, <- app_assoc. cbn [app].
  revert Hc. rewrite chat_cases.
  destruct (retrieval query bot prompt w) as [[r | e] w1]; [|done].
  destruct (complete (llm bot) (prompt_of Response_str bot prompt r) w1)
    as [[c | msg] w2]; [|done].
  intros [= <- <- <-]. unfold get_chat_history.
  fold (history bot). fold (history (after_turn bot prompt (Completion_str c))).
  by rewrite (after_turn_fits _ _ _ Hfit), map_app.
Qed.

(** A turn that fails shows the question and nothing else, while the
    chatbot remembers nothing of it: a page that showed what the chatbot
    remembered no longer does, until the button that clears the history
    empties both. *)
Theorem chat_input_failure_gets_out_of_step
    (api_key prompt : string) (st : SessionState) (w : World) bot e s' :
  accepts api_key prompt st ->
  chatbot st = Some bot ->
  run_chat prompt (bot, w) = (Raise e, s') ->
  let st' := fst (chat_input api_key prompt st w) in
  messages st' = messages st ++ [("user", prompt)]
  /\ chatbot st' = Some bot
  /\ (in_step st -> ~ in_step st')
  /\ in_step (streamlit_clear_history st').
Proof.
  intros Hacc Hb Hc. cbn zeta. rewrite (chat_input_accepted _ _ _ _ bot Hacc Hb).
  assert (s'.1 = bot) as Hsame.
  { revert Hc. rewrite chat_cases.
    destruct (retrieval query bot prompt w) as [[r | e0] w1]; [|by intros [= _ <-]].
    destruct (complete (llm bot) (prompt_of Response_str bot prompt r) w1)
      as [[c | msg] w2]; [done | by intros [= _ <-]]. }
  rewrite Hc. destruct s' as [bot' w']. cbn [fst] in Hsame. subst bot'.
  cbn [fst snd append_message with_chatbot messages chatbot].
  split; [done|]. split; [done|]. split.
  - intros (bot0 & Hb0 & Hm) (bot1 & Hb1 & Hm1). cbn in Hb1, Hm1.
    rewrite Hb in Hb0. injection Hb0 as <-. injection Hb1 as <-.
    rewrite Hm in Hm1. apply (f_equal length) in Hm1.
    rewrite length_app in Hm1. cbn in Hm1. lia.
  - exists (clear_history bot). split; reflexivity.
Qed.

(** The button that creates the index installs, when it succeeds, a new
    chatbot that remembers no turn, and leaves on the page the messages that
    were there: whatever was shown is unknown to the chatbot that answers
    from then on. *)
Theorem create_index_button_forgets_but_shows
    (st : SessionState) (m m' : @Machine World VectorStoreIndex) bot :
  chatbot_from_corpus load_data from_documents persist
    retriever_objects chatbot_objects default_tokenizer ["data"] ["storage"] m
  = (Ok bot, m') ->
  let st' :=
    fst (streamlit_create_index load_data from_documents persist
           retriever_objects chatbot_objects default_tokenizer st m) in
  messages st' = messages st
  /\ chatbot st' = Some bot
  /\ index_created st' = true
  /\ get_chat_history bot = []
  /\ (messages st <> [] -> ~ in_step st').
Proof.
  intros Hc. cbn zeta. unfold streamlit_create_index, try_install. rewrite Hc.
  cbn [fst messages chatbot index_created].
  assert (get_chat_history bot = []) as Hempty.
  { revert Hc. unfold chatbot_from_corpus, bind. rewrite new_indexer_run.
    destruct (create_and_save _ _ _ _ _) as [[i | e] m1]; [|done].
    unfold new_chatbot, bind, read_world, ret.
    destruct (retriever_objects i 3 (world m1)) as [[] | msg]; [|done]. cbn.
    destruct (chatbot_objects (world m1)) as [[] | msg]; [|done].
    by intros [= <- _]. }
  repeat split; try done.
  intros Hne (bot0 & Hb0 & Hm). cbn in Hb0, Hm. injection Hb0 as <-.
  by rewrite Hempty in Hm.
Qed.

End StreamlitProperties.

(** * Concrete runs of the further properties *)


Definition demo_file_as_data_dir : FS := <[["data"] := File "not a directory"]> ∅.

Definition demo_file_as_storage : FS :=
  <[["storage"] := File "not a directory"]> Demo.corpus_disk.

Definition demo_page (shown_so_far : list (string * string))
  : @SessionState (list string) :=
  {| messages := shown_so_far; chatbot := Some Demo.bot; index_created := true |}.

Lemma next_prompt_carries_the_turn_witness :
  exists self',
    chat Demo.query Demo.complete Demo.str Demo.str "hola" (Demo.bot, 0)
    = (Ok "El cielo es azul.", (self', 2))
    /\ _format_chat_history self'
       = "Usuario: hola" +:+ newline +:+ "Asistente: El cielo es azul.".
Proof.
  apply (next_prompt_carries_the_turn Demo.query Demo.complete Demo.str Demo.str
           Demo.bot "hola" 0 "The sky is blue." 1 "El cielo es azul." 2
           eq_refl eq_refl).
  apply Nat.leb_le. vm_compute. reflexivity.
Defined.

Lemma retrieval_context_is_bounded_witness :
  Forall (fun s : NodeSummary Q => String.length (text_preview s) <= 103)
    (map node_summary Demo.nodes).
Proof.
  exact (proj2 (retrieval_context_is_bounded Demo.retrieve Demo.the_retriever "sky" 0
                  {| num_nodes_retrieved := 2;
                     nodes_summary := map node_summary Demo.nodes |} 1 eq_refl)).
Defined.

Lemma preview_can_exceed_the_chunk_witness :
  String.length Demo.long_text = 101
  /\ String.length Demo.long_text
     < String.length (node_text_preview (mkNode (Score := Q) (Some None) Demo.long_text)).
Proof.
  split; [reflexivity|].
  apply (preview_can_exceed_the_chunk (mkNode (Score := Q) (Some None) Demo.long_text)).
  vm_compute. lia.
Defined.

Lemma create_index_builds_and_stores_witness :
  exists m',
    create_index Demo.load_data Demo.from_documents (Demo.machine Demo.corpus_disk)
    = (Ok ["The sky is blue."], m')
    /\ stored_index (indexer m') = Some ["The sky is blue."]
    /\ disk m' = Demo.corpus_disk.
Proof.
  destruct (create_index_builds_and_stores Demo.load_data Demo.from_documents
              (Demo.machine Demo.corpus_disk) ["The sky is blue."]
              ["The sky is blue."] 1)
    as (m' & Hc & Hi & _ & Hd & _).
  - reflexivity.
  - vm_compute. discriminate.
  - reflexivity.
  - reflexivity.
  - exists m'. split; [exact Hc|]. split; [exact Hi | exact Hd].
Defined.

Lemma load_documents_on_regular_file_witness :
  create_index Demo.load_data Demo.from_documents (Demo.machine demo_file_as_data_dir)
  = (Raise (NotADirectoryError "data"), Demo.machine demo_file_as_data_dir).
Proof.
  exact (proj2 (load_documents_on_regular_file Demo.load_data Demo.from_documents
                  (Demo.machine demo_file_as_data_dir) "not a directory" eq_refl)).
Defined.

Lemma save_index_directory_failure_witness :
  save_index Demo.persist ["storage"] (Demo.machine_with_index demo_file_as_storage)
  = (Raise (FileExistsError "storage"), Demo.machine_with_index demo_file_as_storage).
Proof.
  exact (proj2 (save_index_directory_failure Demo.persist
                  (Demo.machine_with_index demo_file_as_storage) ["storage"]
                  Demo.the_index eq_refl) "not a directory" eq_refl).
Defined.


Lemma main_chatbot_comes_from_a_corpus_witness :
  lookup_node ["data"] Demo.corpus_disk = Some Dir
  /\ entries ["data"] Demo.corpus_disk <> [].
Proof.
  pose proof (main_chatbot_comes_from_a_corpus Demo.load_data Demo.from_documents
                Demo.persist Demo.load_index_from_storage Demo.retriever_objects
                Demo.chatbot_objects Demo.count_tokens
                (Demo.machine Demo.corpus_disk)
                (snd (main_before_loop Demo.load_data Demo.from_documents Demo.persist
                        Demo.load_index_from_storage Demo.retriever_objects
                        Demo.chatbot_objects Demo.count_tokens ["data"] ["storage"]
                        (Demo.machine Demo.corpus_disk)))
                ["data"] ["storage"] (chatbot_on Demo.count_tokens Demo.the_index)) as H.
  destruct H as (Hd & He & _); [vm_compute; reflexivity|].
  split; [exact Hd | exact He].
Defined.

Lemma main_on_a_new_checkout_witness :
  main_before_loop Demo.load_data Demo.from_documents Demo.persist
    Demo.load_index_from_storage Demo.retriever_objects Demo.chatbot_objects
    Demo.count_tokens ["data"] ["storage"] (Demo.machine ∅)
  = (Ok None, Demo.machine Demo.empty_corpus_disk)
  /\ main_before_loop Demo.load_data Demo.from_documents Demo.persist
       Demo.load_index_from_storage Demo.retriever_objects Demo.chatbot_objects
       Demo.count_tokens ["data"] ["storage"]
       (Demo.machine Demo.empty_corpus_disk)
     = (Ok None, Demo.machine Demo.empty_corpus_disk).
Proof.
  destruct (main_on_a_new_checkout Demo.load_data Demo.from_documents Demo.persist
              Demo.load_index_from_storage Demo.retriever_objects
              Demo.chatbot_objects Demo.count_tokens (Demo.machine ∅)
              ["data"] ["storage"])
    as (H1 & _ & H2); [reflexivity | reflexivity | reflexivity |].
  split; [exact H1 | exact H2].
Defined.

(** A question, the exit word, and a line that is never read: the history
    holds the one exchange and nothing else. *)
Lemma chat_loop_history_witness :
  history (fst (snd (chat_loop Demo.query Demo.complete Demo.str Demo.str
                       [Line "hola"; Line "Quit"; Line "nunca"] (Demo.bot, 0))))
  = [mkMessage "user" "hola"; mkMessage "assistant" "El cielo es azul."].
Proof.
  destruct (chat_loop_history Demo.query Demo.complete Demo.str Demo.str
              [Line "hola"; Line "Quit"; Line "nunca"] (Demo.bot, 0))
    as (_ & Hfits & _).
  { apply Nat.leb_le. vm_compute. reflexivity. }
  destruct Hfits as (Hh & _).
  { apply Nat.leb_le. vm_compute. reflexivity. }
  exact Hh.
Defined.

Lemma chat_loop_stops_when_told_witness :
  is_exit_command "SALIR" = true
  /\ chat_loop Demo.query Demo.complete Demo.str Demo.str
       [Line "hola"; Line "SALIR"; Line "nunca"] (Demo.bot, 0)
     = chat_loop Demo.query Demo.complete Demo.str Demo.str
         [Line "hola"; Line "SALIR"] (Demo.bot, 0).
Proof.
  split; [reflexivity|].
  refine (proj1 (chat_loop_stops_when_told Demo.query Demo.complete Demo.str Demo.str
                   [Line "hola"] [Line "nunca"] (Line "SALIR") (Demo.bot, 0) _)).
  reflexivity.
Defined.

Lemma chat_loop_survives_failures_witness :
  chat_loop Demo.query Demo.complete_down Demo.str Demo.str
    [Line "hola"; Line "otra vez"] (Demo.bot, 0)
  = ([ErrorShown "hola" (ExternalError "connection refused");
      ErrorShown "otra vez" (ExternalError "connection refused")],
     false, (Demo.bot, 4))
  /\ snd (fst (chat_loop Demo.query Demo.complete_down Demo.str Demo.str
                 [Line "hola"; Line "otra vez"] (Demo.bot, 0))) = false.
Proof.
  split; [reflexivity|].
  refine (proj1 (chat_loop_survives_failures Demo.query Demo.complete_down
                   Demo.str Demo.str [Line "hola"; Line "otra vez"] (Demo.bot, 0) _)).
  constructor; [reflexivity|]. constructor; [reflexivity|]. constructor.
Defined.

Lemma chat_input_refused_witness :
  streamlit_chat_input Demo.query Demo.complete Demo.str Demo.str
    "" "hola" (demo_page []) 0
  = (demo_page [], 0).
Proof.
  apply (chat_input_refused Demo.query Demo.complete Demo.str Demo.str
           "" "hola" (demo_page []) 0).
  right. left. reflexivity.
Defined.

Lemma chat_input_success_keeps_in_step_witness :
  accepts "sk-key" "hola" (demo_page [])
  /\ in_step (demo_page [])
  /\ in_step (fst (streamlit_chat_input Demo.query Demo.complete Demo.str Demo.str
                     "sk-key" "hola" (demo_page []) 0)).
Proof.
  assert (accepts "sk-key" "hola" (demo_page [])) as Hacc.
  { split; [discriminate|]. split; [discriminate | reflexivity]. }
  assert (in_step (demo_page [])) as Hstep.
  { exists Demo.bot. split; reflexivity. }
  split; [exact Hacc|]. split; [exact Hstep|].
  destruct (chat_input_success_keeps_in_step Demo.query Demo.complete Demo.str Demo.str
              "sk-key" "hola" (demo_page []) 0 Demo.bot "El cielo es azul."
              Demo.bot_after_turn 2 Hacc eq_refl eq_refl)
    as (_ & _ & _ & Hkeep).
  apply Hkeep; [|exact Hstep].
  apply Nat.leb_le. vm_compute. reflexivity.
Defined.

Lemma chat_input_failure_gets_out_of_step_witness :
  messages (fst (streamlit_chat_input Demo.query Demo.complete_down Demo.str Demo.str
                   "sk-key" "hola" (demo_page []) 0))
  = [("user", "hola")]
  /\ ~ in_step (fst (streamlit_chat_input Demo.query Demo.complete_down Demo.str Demo.str
                       "sk-key" "hola" (demo_page []) 0)).
Proof.
  assert (accepts "sk-key" "hola" (demo_page [])) as Hacc.
  { split; [discriminate|]. split; [discriminate | reflexivity]. }
  assert (in_step (demo_page [])) as Hstep.
  { exists Demo.bot. split; reflexivity. }
  destruct (chat_input_failure_gets_out_of_step Demo.query Demo.complete_down
              Demo.str Demo.str "sk-key" "hola" (demo_page []) 0 Demo.bot
              (ExternalError "connection refused") (Demo.bot, 2) Hacc eq_refl eq_refl)
    as (Hm & _ & Hout & _).
  split; [exact Hm | exact (Hout Hstep)].
Defined.

Lemma create_index_button_forgets_but_shows_witness :
  chatbot (fst (streamlit_create_index Demo.load_data Demo.from_documents Demo.persist
                  Demo.retriever_objects Demo.chatbot_objects Demo.count_tokens
                  (demo_page [("user", "hola")]) (Demo.machine Demo.corpus_disk)))
  = Some (chatbot_on Demo.count_tokens ["The sky is blue."])
  /\ messages (fst (streamlit_create_index Demo.load_data Demo.from_documents
                      Demo.persist Demo.retriever_objects Demo.chatbot_objects
                      Demo.count_tokens (demo_page [("user", "hola")])
                      (Demo.machine Demo.corpus_disk)))
     = [("user", "hola")].
Proof.
  destruct (create_index_button_forgets_but_shows Demo.load_data Demo.from_documents
              Demo.persist Demo.retriever_objects Demo.chatbot_objects
              Demo.count_tokens (demo_page [("user", "hola")])
              (Demo.machine Demo.corpus_disk)
              (snd (chatbot_from_corpus Demo.load_data Demo.from_documents Demo.persist
                      Demo.retriever_objects Demo.chatbot_objects Demo.count_tokens
                      ["data"] ["storage"] (Demo.machine Demo.corpus_disk)))
              (chatbot_on Demo.count_tokens ["The sky is blue."]))
    as (Hm & Hb & _); [vm_compute; reflexivity|].
  split; [exact Hb | exact Hm].
Defined.
